(** * Snowflake connector: a shallow embedding of
    [semantic_model_generator/snowflake_utils/snowflake_connector.py]

    The Python module talks to a warehouse through a driver connection.
    The embedding keeps the code's control flow (exceptions, [try]/[except],
    [try]/[finally], the fan-out over a thread pool and the re-ordering of
    its results) and replaces the warehouse by an answer function: what the
    driver gives back for a statement.  Every function returns the trace of
    the events it caused (statements handed to the driver, log lines,
    sessions opened and closed) together with its result or the exception
    it raised. *)

From Stdlib Require Import String Ascii List ZArith Lia.
From Stdlib Require Import DecimalString.
From stdpp Require Import base option list sorting gmap strings.

Local Open Scope string_scope.
Local Open Scope list_scope.
Local Open Scope Z_scope.

(** ** Python values, rows and exceptions *)

Module Py.

(** Exceptions that the module raises itself, and those it may receive from
    the driver.  [ProgrammingError] is the driver's error class the module
    names; [DriverError] is any other exception coming out of the driver
    (its class name and its message). *)
Inductive PyExc : Type :=
| ProgrammingError (msg : string)
| DriverError (cls msg : string)
| ValueError (msg : string)
| AssertionError (msg : string)
| IndexError (msg : string)
| KeyError (key : string)
| TypeError (msg : string)
| AttributeError (msg : string).

(** The double quote and the newline, as one-character strings. *)
Definition dq : string := String (ascii_of_nat 34) EmptyString.
Definition nl : string := String (ascii_of_nat 10) EmptyString.
Definition sq : string := "'".

(** Python's [repr] of a string.  The quotes are double when the string has
    a single quote and no double quote, single otherwise; the backslash and
    the chosen quote are escaped with a backslash, tab, newline and carriage
    return are written with their letter, the other control characters as a
    two-digit hexadecimal escape.  The bytes above 127 (the UTF-8 encoding
    of the other characters) are kept, as Python keeps the printable
    characters. *)
Definition backslash : ascii := ascii_of_nat 92.

Definition hex_digit (n : nat) : ascii :=
  nth n (list_ascii_of_string "0123456789abcdef") "0"%char.

Definition escape_char (quote c : ascii) : string :=
  let n := nat_of_ascii c in
  if decide (c = quote \/ c = backslash) then String backslash (String c "")
  else if decide (n = 9%nat) then String backslash "t"
  else if decide (n = 10%nat) then String backslash "n"
  else if decide (n = 13%nat) then String backslash "r"
  else if decide (n < 32 \/ n = 127)%nat then
    String backslash
      (String "x" (String (hex_digit (Nat.div n 16))
                     (String (hex_digit (Nat.modulo n 16)) "")))
  else String c "".

Fixpoint escape (quote : ascii) (s : string) : string :=
  match s with
  | EmptyString => EmptyString
  | String c rest => escape_char quote c +:+ escape quote rest
  end.

Fixpoint contains (c : ascii) (s : string) : bool :=
  match s with
  | EmptyString => false
  | String c' rest => bool_decide (c = c') || contains c rest
  end.

Definition repr_str (s : string) : string :=
  let quote :=
    if contains "'" s && negb (contains (ascii_of_nat 34) s)
    then ascii_of_nat 34 else "'"%char in
  String quote (escape quote s +:+ String quote "").

(** [str(e)] of an exception, as an f-string interpolates it; that of a
    [KeyError] is the [repr] of the key. *)
Definition exc_str (e : PyExc) : string :=
  match e with
  | ProgrammingError m | DriverError _ m | ValueError m | AssertionError m
  | IndexError m | TypeError m | AttributeError m => m
  | KeyError k => repr_str k
  end.

Inductive result (A : Type) : Type :=
| Ok (a : A)
| Raise (e : PyExc).
Arguments Ok {A} a.
Arguments Raise {A} e.

(** A cell of a result row.  [VObj] stands for any other driver object
    (a date, a decimal, ...), given by its [str] and its [repr]. *)
Inductive Value : Type :=
| VNone
| VStr (s : string)
| VInt (z : Z)
| VBool (b : bool)
| VObj (str_ repr_ : string).

Definition str_int (z : Z) : string := NilZero.string_of_int (Z.to_int z).

(** Python's [str(v)]. *)
Definition str (v : Value) : string :=
  match v with
  | VNone => "None"
  | VStr s => s
  | VInt z => str_int z
  | VBool true => "True"
  | VBool false => "False"
  | VObj s _ => s
  end.

(** Python's [repr(v)]. *)
Definition repr (v : Value) : string :=
  match v with
  | VStr s => repr_str s
  | VObj _ r => r
  | _ => str v
  end.

(** A fetched row: a name-keyed record (a [dict], in insertion order) as a
    [DictCursor] gives it, or anything else (a tuple), given by its
    rendering. *)
Inductive Row : Type :=
| RDict (items : list (string * Value))
| ROther (rendering : string).

Definition repr_row (r : Row) : string :=
  match r with
  | RDict items =>
      "{" +:+ String.concat ", "
                (map (fun kv => repr_str (fst kv) +:+ ": " +:+ repr (snd kv)) items)
          +:+ "}"
  | ROther s => s
  end.

Definition repr_rows (rows : list Row) : string :=
  "[" +:+ String.concat ", " (map repr_row rows) +:+ "]".

(** [d[k]] on an insertion-ordered dict. *)
Fixpoint dict_get (items : list (string * Value)) (k : string) : option Value :=
  match items with
  | [] => None
  | (k', v) :: rest => if decide (k' = k) then Some v else dict_get rest k
  end.

(** ** Events and the monad of traced, fallible computations *)

Inductive Level : Type := DEBUG | INFO | WARNING | ERROR.

Inductive Event : Type :=
| Executed (statement : string)
| Logged (level : Level) (msg : string)
| SessionOpened
| SessionClosed.

Definition M (A : Type) : Type := (list Event * result A)%type.

Definition ret {A} (a : A) : M A := ([], Ok a).
Definition raise {A} (e : PyExc) : M A := ([], Raise e).
Definition emit (ev : Event) : M unit := ([ev], Ok tt).

Definition bind {A B} (m : M A) (f : A -> M B) : M B :=
  match m with
  | (t, Ok a) => let '(t', r) := f a in (t ++ t', r)
  | (t, Raise e) => (t, Raise e)
  end.

(** [try: m except Exception as e: h e] *)
Definition try_except {A} (m : M A) (h : PyExc -> M A) : M A :=
  match m with
  | (t, Raise e) => let '(t', r) := h e in (t ++ t', r)
  | (t, Ok a) => (t, Ok a)
  end.

(** [try: m finally: f], for a clean-up [f] that does not raise. *)
Definition try_finally {A} (m : M A) (f : M unit) : M A :=
  let '(t, r) := m in (t ++ fst f, r).

Fixpoint mapM {A B} (f : A -> M B) (l : list A) : M (list B) :=
  match l with
  | [] => ret []
  | x :: rest =>
      bind (f x) (fun y => bind (mapM f rest) (fun ys => ret (y :: ys)))
  end.

Definition trace {A} (m : M A) : list Event := fst m.
Definition outcome {A} (m : M A) : result A := snd m.

End Py.
Export Py.

Notation "'let!' x ':=' m 'in' k" := (bind m (fun x => k))
  (at level 10, x name, m at level 100, k at level 200, only parsing).
Notation "'do!' m 'in' k" := (bind m (fun _ => k))
  (at level 10, m at level 100, k at level 200, only parsing).

(** The statements an event trace handed to the driver. *)
Definition statements (t : list Event) : list string :=
  omap (fun ev => match ev with Executed q => Some q | _ => None end) t.

(** ** The driver connection *)

(** What the driver gives back for one [cursor(...).execute(q)] followed by
    a fetch. *)
Inductive Answer (A : Type) : Type :=
| CursorNone
| Raises (e : PyExc)
| ExecuteNone
| Fetched (rows : A).
Arguments CursorNone {A}.
Arguments Raises {A} e.
Arguments ExecuteNone {A}.
Arguments Fetched {A} rows.

(** A row of [show tables in database] / [show views in database], reduced
    to the three columns the module selects. *)
Record ShowRow : Type := mkShowRow {
  name : string;
  schema_name : string;
  comment : option string
}.

(** A row of the information-schema query, with the columns of its select
    list. *)
Record InfoRow : Type := mkInfoRow {
  i_TABLE_SCHEMA : string;
  i_TABLE_NAME : string;
  i_COLUMN_NAME : string;
  i_DATA_TYPE : string;
  i_COLUMN_COMMENT : option string
}.

Record SnowflakeConnection : Type := mkConnection {
  warehouse : option string;
  (** [cursor(DictCursor).execute(q).fetchall()] *)
  dict_cursor : string -> Answer (list Row);
  (** [cursor().execute(stmt)], result unused: the exception, if any *)
  statement : string -> option PyExc;
  (** [cursor().execute(q)] then [fetchall()] with [description] *)
  show_cursor : string -> Answer (list ShowRow);
  (** [cursor().execute(q).fetch_pandas_all()] *)
  pandas_cursor : string -> Answer (list InfoRow)
}.

(** ** Column and Table *)

(** Modelled from the spec: the [Column] and [Table] types
    ([data_processing/data_types.py] is not among the sources): a column has
    an ordinal index, a name, a comment, the raw datatype string of the
    catalog and an optional sequence of sample strings; a table has an
    index, a name, a comment and its ordered columns. *)
Record Column : Type := mkColumn {
  col_id_ : Z;
  column_name : string;
  col_comment : option string;
  column_type : string;
  values : option (list string)
}.

Record Table : Type := mkTable {
  id_ : Z;
  tbl_name : string;
  tbl_comment : option string;
  columns : list Column
}.

(** A row of the merged frame that [get_valid_schemas_tables_columns_df]
    returns and [get_table_representation] reads. *)
Record MergedRow : Type := mkMergedRow {
  TABLE_NAME : string;
  TABLE_SCHEMA : string;
  TABLE_COMMENT : option string;
  COLUMN_NAME : string;
  DATA_TYPE : string;
  COLUMN_COMMENT : option string
}.

(** ** Column sampler *)

Definition sample_query (column_name schema_name table_name : string) (ndv : Z) : string :=
  "select distinct " +:+ dq +:+ column_name +:+ dq +:+ " from " +:+ dq +:+ schema_name
  +:+ dq +:+ "." +:+ dq +:+ table_name +:+ dq +:+ " limit " +:+ str_int ndv.

(** [cursor = conn.cursor(DictCursor)], the two asserts, [execute] and
    [fetchall]. *)
Definition fetch_dict_rows (conn : SnowflakeConnection) (cursor_msg execute_msg q : string)
  : M (list Row) :=
  match dict_cursor conn q with
  | CursorNone => raise (AssertionError cursor_msg)
  | Raises e => do! emit (Executed q) in raise e
  | ExecuteNone => do! emit (Executed q) in raise (AssertionError execute_msg)
  | Fetched rows => do! emit (Executed q) in ret rows
  end.

(** [r[col_key]] *)
Definition getitem (r : Row) (col_key : string) : M Value :=
  match r with
  | RDict items =>
      match dict_get items col_key with
      | Some v => ret v
      | None => raise (KeyError col_key)
      end
  | ROther _ => raise (TypeError "tuple indices must be integers or slices, not str")
  end.

(** The body of the [try] of [_get_column_representation]: the value that
    [column_values] holds when the body ends. *)
Definition sample_body (conn : SnowflakeConnection)
    (schema_name table_name column_name : string) (ndv : Z) : M (option (list string)) :=
  let! res := fetch_dict_rows conn "Cursor is unexpectedly None"
                "cursor_execute should not be none "
                (sample_query column_name schema_name table_name ndv) in
  match res with
  | [] => ret None
  | RDict items :: _ =>
      let! col_key := match items with
                      | (k, _) :: _ => ret k
                      | [] => raise (IndexError "list index out of range")
                      end in
      let! column_values := mapM (fun r => let! v := getitem r col_key in ret (str v)) res in
      ret (Some column_values)
  | ROther _ :: _ =>
      raise (ValueError ("Expected the first item of res to be a dict. Instead passed "
                         +:+ repr_rows res))
  end.

Definition _get_column_representation (conn : SnowflakeConnection)
    (schema_name table_name column_name : string) (column_comment : option string)
    (column_index : Z) (column_datatype : string) (ndv : Z) : M Column :=
  let! column_values :=
    (if decide (0 < ndv) then
       try_except (sample_body conn schema_name table_name column_name ndv)
         (fun e => do! emit (Logged ERROR ("unable to get values: " +:+ exc_str e)) in ret None)
     else ret None) in
  ret {| col_id_ := column_index;
         column_name := column_name;
         col_comment := column_comment;
         column_type := column_datatype;
         values := column_values |}.

(** ** Table assembler *)

(** Python's [sorted(l, key=lambda x: x[0])]: a stable sort on the index. *)
Fixpoint insert_by_index {A} (x : nat * A) (l : list (nat * A)) : list (nat * A) :=
  match l with
  | [] => [x]
  | y :: rest =>
      if decide (x.1 <= y.1)%nat then x :: y :: rest else y :: insert_by_index x rest
  end.

Definition sorted_by_index {A} (l : list (nat * A)) : list (nat * A) :=
  foldr insert_by_index [] l.

(** [concurrent.futures.ThreadPoolExecutor(max_workers=...)] refuses a pool
    without workers. *)
Definition ThreadPoolExecutor (max_workers : Z) : M unit :=
  if decide (max_workers <= 0)
  then raise (ValueError "max_workers must be greater than 0")
  else ret tt.

(** [as_completed(futures)]: the submitted futures, in the order in which
    they complete; [completion] lists the submission ranks in that order. *)
Definition as_completed {A} (futures : list A) (completion : list nat) : list A :=
  omap (fun i => futures !! i) completion.

Definition _get_col (conn : SnowflakeConnection) (schema_name table_name : string)
    (ndv_per_column : Z) (col_index : nat) (column_row : MergedRow) : M Column :=
  _get_column_representation conn schema_name table_name
    (COLUMN_NAME column_row) (COLUMN_COMMENT column_row) (Z.of_nat col_index)
    (DATA_TYPE column_row) ndv_per_column.

(** The thread pool decides only when the submitted tasks complete: the
    schedule is the argument [completion].  The trace lists the events of
    the tasks in completion order. *)
Definition get_table_representation (conn : SnowflakeConnection)
    (schema_name table_name : string) (table_index : Z) (ndv_per_column : Z)
    (columns_df : list MergedRow) (max_workers : Z) (completion : list nat) : M Table :=
  let! table_comment :=
    match columns_df with
    | row :: _ => ret (TABLE_COMMENT row)
    | [] => raise (IndexError "single positional indexer is out-of-bounds")
    end in
  do! ThreadPoolExecutor max_workers in
  let future_to_col_index :=
    imap (fun col_index column_row =>
            (_get_col conn schema_name table_name ndv_per_column col_index column_row,
             col_index)) columns_df in
  let! index_and_column :=
    mapM (fun fc : M Column * nat =>
            let! column := fc.1 in ret (fc.2, column))
         (as_completed future_to_col_index completion) in
  let columns := map snd (sorted_by_index index_and_column) in
  ret {| id_ := table_index; tbl_name := table_name;
         tbl_comment := table_comment; columns := columns |}.

(** ** Metadata query layer *)

(** A row of the frame that [_fetch_valid_tables_and_views] builds. *)
Record ListingRow : Type := mkListingRow {
  l_TABLE_NAME : string;
  l_TABLE_SCHEMA : string;
  l_TABLE_COMMENT : option string
}.

(** [conn.cursor().execute(query)] with its two possible failures before
    any row is read; [none_msg] is the message of the assert that follows. *)
Definition plain_cursor {A} (answer : string -> Answer A) (none_msg query : string) : M A :=
  match answer query with
  | CursorNone => raise (AttributeError "'NoneType' object has no attribute 'execute'")
  | Raises e => do! emit (Executed query) in raise e
  | ExecuteNone => do! emit (Executed query) in raise (AssertionError none_msg)
  | Fetched rows => do! emit (Executed query) in ret rows
  end.

Definition _get_df (conn : SnowflakeConnection) (query : string) : M (list ListingRow) :=
  let! df := plain_cursor (show_cursor conn) "cursor should not be none here." query in
  ret (map (fun r => {| l_TABLE_NAME := name r;
                        l_TABLE_SCHEMA := schema_name r;
                        l_TABLE_COMMENT := comment r |}) df).

Definition _fetch_valid_tables_and_views (conn : SnowflakeConnection) : M (list ListingRow) :=
  let! tables := _get_df conn "show tables in database" in
  let! views := _get_df conn "show views in database" in
  ret (tables ++ views).

(** Truth value of a Python string, of an optional string and of an
    optional list. *)
Definition truthy (s : string) : bool := negb (String.eqb s "").

Definition truthy_opt (o : option string) : bool :=
  match o with Some s => truthy s | None => false end.

Definition truthy_list {A} (o : option (list A)) : bool :=
  match o with Some (_ :: _) => true | _ => false end.

(** [str.lower()] on strings of ASCII characters: the letters A to Z become
    a to z.  The lowercase forms of the characters outside ASCII are not
    modelled: their bytes are left as they are. *)
Definition lower_ascii (c : ascii) : ascii :=
  let n := nat_of_ascii c in
  if ((65 <=? n) && (n <=? 90))%nat then ascii_of_nat (n + 32) else c.

Fixpoint lower (s : string) : string :=
  match s with
  | EmptyString => EmptyString
  | String c rest => String (lower_ascii c) (lower rest)
  end.

Definition where_clause (table_schema : option string) (table_names : option (list string))
  : string :=
  if truthy_opt table_schema then
    " where t.table_schema ilike '" +:+ default "" table_schema +:+ "' "
    +:+ (if truthy_list table_names then
           "AND LOWER(t.table_name) in ("
           +:+ String.concat ", " (map (fun t => sq +:+ lower t +:+ sq) (default [] table_names))
           +:+ ") "
         else "")
  else "".

Definition catalog_query (table_schema : option string) (table_names : option (list string))
  : string :=
  "select t.TABLE_SCHEMA, t.TABLE_NAME, c.COLUMN_NAME, c.DATA_TYPE, c.COMMENT as COLUMN_COMMENT"
  +:+ nl +:+ "from information_schema.tables as t"
  +:+ nl +:+ "join information_schema.columns as c on t.table_schema = c.table_schema and t.table_name = c.table_name"
  +:+ where_clause table_schema table_names
  +:+ nl +:+ "order by 1, 2, c.ordinal_position".

(** [left.merge(right, how="inner", on=(TABLE_SCHEMA, TABLE_NAME))] as pandas
    documents it: the keys of both frames, in the order of the left frame;
    the rows of the right frame that share a key keep their order.  The
    result has the columns of the left frame, then those of the right frame
    that are not keys.  For a key that occurs more than once in the left
    frame the versions of pandas differ in where they put its rows (the
    older ones group them); which rows are in the result, and how often, is
    the same in all of them.  What is stated on the order of the result is
    therefore stated for a left frame whose keys are distinct. *)
Definition same_object (l : ListingRow) (r : InfoRow) : bool :=
  bool_decide (l_TABLE_SCHEMA l = i_TABLE_SCHEMA r /\ l_TABLE_NAME l = i_TABLE_NAME r).

Definition joined (l : ListingRow) (r : InfoRow) : MergedRow :=
  {| TABLE_NAME := l_TABLE_NAME l;
     TABLE_SCHEMA := l_TABLE_SCHEMA l;
     TABLE_COMMENT := l_TABLE_COMMENT l;
     COLUMN_NAME := i_COLUMN_NAME r;
     DATA_TYPE := i_DATA_TYPE r;
     COLUMN_COMMENT := i_COLUMN_COMMENT r |}.

Definition merge_inner (left : list ListingRow) (right : list InfoRow) : list MergedRow :=
  flat_map (fun l => map (joined l) (filter (fun r => same_object l r = true) right)) left.

Definition get_valid_schemas_tables_columns_df (conn : SnowflakeConnection)
    (table_schema : option string) (table_names : option (list string))
  : M (list MergedRow) :=
  do! (if truthy_list table_names && negb (truthy_opt table_schema)
       then emit (Logged WARNING
                    "Provided table_name without table_schema, cannot filter to fetch the specific table")
       else ret tt) in
  let query := catalog_query table_schema table_names in
  let! schemas_tables_columns_df :=
    plain_cursor (pandas_cursor conn) "cursor_execute should not be None here" query in
  let! valid_tables_and_views_df := _fetch_valid_tables_and_views conn in
  ret (merge_inner valid_tables_and_views_df schemas_tables_columns_df).

(** ** Connection manager *)

(** Modelled from the spec: the module [env_vars] (not among the sources):
    the credentials read from the process environment, each possibly unset,
    and the statement timeout of the configuration. *)
Record Env : Type := mkEnv {
  SNOWFLAKE_ROLE : option string;
  SNOWFLAKE_USER : option string;
  SNOWFLAKE_PASSWORD : option string;
  SNOWFLAKE_WAREHOUSE : option string;
  SNOWFLAKE_HOST : option string;
  DEFAULT_SESSION_TIMEOUT_SEC : Z
}.

Record SnowflakeConnector : Type := mkConnector {
  account_name : string;
  _max_workers : Z
}.

(** What the driver does with a login: refuse it with an exception or hand
    out a connection.  Arguments: user, password, account, role, warehouse,
    host. *)
Definition Driver : Type :=
  string -> string -> string -> string -> string -> option string ->
  result SnowflakeConnection.

(** Modelled from the spec: [utils.snowflake_connection] (not among the
    sources) establishes the network session. *)
Definition snowflake_connection (drv : Driver)
    (user password account role wh : string) (host : option string)
  : M SnowflakeConnection :=
  match drv user password account role wh host with
  | Ok connection => do! emit SessionOpened in ret connection
  | Raise e => raise e
  end.

(** A required environment variable: [if not v: raise ValueError(msg)]. *)
Definition required (v : option string) (msg : string) : M string :=
  match v with
  | Some s => if truthy s then ret s else raise (ValueError msg)
  | None => raise (ValueError msg)
  end.

Definition _get_role (env : Env) : M string :=
  required (SNOWFLAKE_ROLE env)
    "You need to set an env var for the snowflake role. export SNOWFLAKE_ROLE=<your-snowflake-role>".

Definition _get_user (env : Env) : M string :=
  required (SNOWFLAKE_USER env)
    "You need to set an env var for the snowflake user. export SNOWFLAKE_USER=<your-snowflake-user>".

Definition _get_password (env : Env) : M string :=
  required (SNOWFLAKE_PASSWORD env)
    "You need to set an env var for the snowflake password. export SNOWFLAKE_PASSWORD=<your-snowflake-password>".

Definition _get_warehouse (env : Env) : M string :=
  required (SNOWFLAKE_WAREHOUSE env)
    "You need to set an env var for the snowflake warehouse. export SNOWFLAKE_WAREHOUSE=<your-snowflake-warehouse-name>".

Definition _get_host (env : Env) : M (option string) :=
  do! (if truthy_opt (SNOWFLAKE_HOST env) then ret tt
       else emit (Logged INFO
                    "No host set. Attempting to connect without. To set export SNOWFLAKE_HOST=<snowflake-host-name>")) in
  ret (SNOWFLAKE_HOST env).

Definition _QUERY_TAG : string := "SEMANTIC_MODEL_GENERATOR".

(** [connection.cursor().execute(stmt)], the result unused. *)
Definition cursor_execute (connection : SnowflakeConnection) (stmt : string) : M unit :=
  do! emit (Executed stmt) in
  match statement connection stmt with
  | Some e => raise e
  | None => ret tt
  end.

Definition _open_connection (env : Env) (drv : Driver) (self : SnowflakeConnector)
    (db_name : string) (schema_name : option string) : M SnowflakeConnection :=
  let! user := _get_user env in
  let! password := _get_password env in
  let! role := _get_role env in
  let! wh := _get_warehouse env in
  let! host := _get_host env in
  let! connection :=
    snowflake_connection drv user password (account_name self) role wh host in
  do! (if truthy db_name then
         try_except (cursor_execute connection ("USE DATABASE " +:+ db_name))
           (fun _ => raise (ValueError
              ("Could not connect to database " +:+ db_name
               +:+ ". Does the database exist in " +:+ account_name self +:+ "?")))
       else ret tt) in
  do! (if truthy_opt schema_name then
         try_except (cursor_execute connection ("USE SCHEMA " +:+ default "" schema_name))
           (fun _ => raise (ValueError
              ("Could not connect to schema " +:+ default "" schema_name
               +:+ ". Does the schema exist in the " +:+ db_name +:+ " database?")))
       else ret tt) in
  do! (if truthy _QUERY_TAG then
         cursor_execute connection
           ("ALTER SESSION SET QUERY_TAG = '" +:+ _QUERY_TAG +:+ "'")
       else ret tt) in
  do! cursor_execute connection
        ("ALTER SESSION SET STATEMENT_TIMEOUT_IN_SECONDS = "
         +:+ str_int (DEFAULT_SESSION_TIMEOUT_SEC env)) in
  ret connection.

(** [connection.close()] *)
Definition _close_connection (connection : SnowflakeConnection) : M unit :=
  emit SessionClosed.

(** The context manager [connect], applied to the body of its [with]
    statement.  [conn] is bound only when [_open_connection] returns; the
    [finally] clause closes what [conn] holds. *)
Definition connect {A} (env : Env) (drv : Driver) (self : SnowflakeConnector)
    (db_name : string) (schema_name : option string)
    (body : SnowflakeConnection -> M A) : M A :=
  let opened := _open_connection env drv self db_name schema_name in
  let conn := match outcome opened with Ok c => Some c | Raise _ => None end in
  try_finally
    (let! c := opened in body c)
    (match conn with
     | Some c => _close_connection c
     | None => ret tt
     end).

(** Sessions left open by a trace: opened and not closed since. *)
Definition open_sessions (t : list Event) : Z :=
  foldl (fun n ev => match ev with
                     | SessionOpened => n + 1
                     | SessionClosed => n - 1
                     | _ => n
                     end) 0 t.

(** ** Generic query executor *)

Definition replace_ascii (old new : ascii) (s : string) : string :=
  string_of_list_ascii
    (map (fun c => if decide (c = old) then new else c) (list_ascii_of_string s)).

(** [out_dict[k].append(v)] on a [defaultdict(list)]. *)
Definition append_value (out_dict : gmap string (list Value)) (kv : string * Value)
  : gmap string (list Value) :=
  <[kv.1 := default [] (out_dict !! kv.1) ++ [kv.2]]> out_dict.

Fixpoint collect_rows (out_dict : gmap string (list Value)) (result : list Row)
  : M (gmap string (list Value)) :=
  match result with
  | [] => ret out_dict
  | RDict items :: rest => collect_rows (foldl append_value out_dict items) rest
  | ROther rendering :: _ =>
      raise (ValueError ("Expected a dict for row object. Instead passed " +:+ rendering))
  end.

(** The body of the [try] of [execute]. *)
Definition execute_body (env : Env) (connection : SnowflakeConnection) (query : string)
  : M (list Row) :=
  do! (match warehouse connection with
       | None =>
           let! wh := _get_warehouse env in
           do! emit (Logged DEBUG
                  ("There is no Warehouse assigned to Connection, setting it to config default ("
                   +:+ wh +:+ ")")) in
           cursor_execute connection ("use warehouse " +:+ replace_ascii "-" "_" wh)
       | Some _ => ret tt
       end) in
  do! emit (Logged INFO ("Executing query = " +:+ query)) in
  plain_cursor (dict_cursor connection) "cursor_execute should not be None here" query.

Definition execute (env : Env) (connection : SnowflakeConnection) (query : string)
  : M (gmap string (list Value)) :=
  let! result :=
    try_except (execute_body env connection query)
      (fun e => match e with
                | ProgrammingError _ => raise (ValueError ("Query Error: " +:+ exc_str e))
                | _ => raise e
                end) in
  collect_rows ∅ result.

(** * Notions used by the statements *)

(** The sample values that the column sampler leaves in [column_values]:
    what the body of its [try] returned, nothing when the body raised or
    was not entered. *)
Definition sampled (conn : SnowflakeConnection) (schema_name table_name column_name : string)
    (ndv : Z) : option (list string) :=
  if decide (0 < ndv) then
    match outcome (sample_body conn schema_name table_name column_name ndv) with
    | Ok column_values => column_values
    | Raise _ => None
    end
  else None.

(** The column built from the row at rank [col_index] of the frame. *)
Definition column_of (conn : SnowflakeConnection) (schema_name table_name : string)
    (ndv : Z) (col_index : nat) (column_row : MergedRow) : Column :=
  {| col_id_ := Z.of_nat col_index;
     column_name := COLUMN_NAME column_row;
     col_comment := COLUMN_COMMENT column_row;
     column_type := DATA_TYPE column_row;
     values := sampled conn schema_name table_name (COLUMN_NAME column_row) ndv |}.

Definition index_le {A} (x y : nat * A) : Prop := (x.1 <= y.1)%nat.

Definition is_dict (r : Row) : Prop :=
  match r with RDict _ => True | ROther _ => False end.

Definition cells_of (k : string) (items : list (string * Value)) : list Value :=
  map snd (filter (fun kv => kv.1 = k) items).

(** The values of column [k] in the rows, in row order. *)
Definition column_cells (k : string) (rows : list Row) : list Value :=
  flat_map (fun r => match r with
                     | RDict items => cells_of k items
                     | ROther _ => []
                     end) rows.

Definition no_empty_column (d : gmap string (list Value)) : Prop :=
  forall k, d !! k <> Some [].

Definition listing_row (r : ShowRow) : ListingRow :=
  {| l_TABLE_NAME := name r; l_TABLE_SCHEMA := schema_name r; l_TABLE_COMMENT := comment r |}.

(** The rows of the information-schema answer that belong to a listed
    object, in the order of that answer. *)
Definition rows_of (l : ListingRow) (info : list InfoRow) : list InfoRow :=
  filter (fun r => same_object l r = true) info.

(** Order on (schema, table): by schema, then by table. *)
Definition object_le (a b : string * string) : Prop :=
  (a.1 <> b.1 /\ String.le a.1 b.1) \/ (a.1 = b.1 /\ String.le a.2 b.2).

Definition ordered_by_schema_table (df : list MergedRow) : Prop :=
  StronglySorted
    (fun a b => object_le (TABLE_SCHEMA a, TABLE_NAME a) (TABLE_SCHEMA b, TABLE_NAME b)) df.

Definition info_ordered_by_schema_table (info : list InfoRow) : Prop :=
  StronglySorted
    (fun a b => object_le (i_TABLE_SCHEMA a, i_TABLE_NAME a)
                          (i_TABLE_SCHEMA b, i_TABLE_NAME b)) info.

(** The four mandatory credentials, in the order in which
    [_open_connection] resolves them. *)
Inductive Credential : Type := User | Password | Role | Warehouse.

#[global] Instance Credential_eq_dec : EqDecision Credential.
Proof. solve_decision. Defined.

Definition credential (env : Env) (c : Credential) : option string :=
  match c with
  | User => SNOWFLAKE_USER env
  | Password => SNOWFLAKE_PASSWORD env
  | Role => SNOWFLAKE_ROLE env
  | Warehouse => SNOWFLAKE_WAREHOUSE env
  end.

Definition variable (c : Credential) : string :=
  match c with
  | User => "SNOWFLAKE_USER"
  | Password => "SNOWFLAKE_PASSWORD"
  | Role => "SNOWFLAKE_ROLE"
  | Warehouse => "SNOWFLAKE_WAREHOUSE"
  end.

(** [msg] contains the name [var]. *)
Definition mentions (msg var : string) : bool :=
  match String.index 0 var msg with Some _ => true | None => false end.

(** * Sample inputs *)

Module Examples.

(** Table [T] of schema [S] with the columns [A], [B], [C] and two samples
    per column: [A] has the values x and y, the query on [B] is refused,
    [C] has the numbers 1 and 2; a fourth column [D] has no row. *)
Definition sampling_conn : SnowflakeConnection :=
  {| warehouse := Some "WH";
     dict_cursor q :=
       if decide (q = sample_query "A" "S" "T" 2)
       then Fetched [RDict [("A", VStr "x")]; RDict [("A", VStr "y")]]
       else if decide (q = sample_query "B" "S" "T" 2)
       then Raises (ProgrammingError "SQL compilation error: invalid identifier B")
       else if decide (q = sample_query "C" "S" "T" 2)
       then Fetched [RDict [("C", VInt 1)]; RDict [("C", VInt 2)]]
       else Fetched [];
     statement _ := None;
     show_cursor _ := Fetched [];
     pandas_cursor _ := Fetched [] |}.

Definition columns_df : list MergedRow :=
  [ mkMergedRow "T" "S" (Some "a table") "A" "TEXT" None;
    mkMergedRow "T" "S" (Some "a table") "B" "TEXT" (Some "refused");
    mkMergedRow "T" "S" (Some "a table") "C" "NUMBER" None ].

(** A database with the table [ORDERS] and the view [CUSTOMERS_V] in schema
    [SALES]; the information schema also lists [OLD_ORDERS], which the live
    listing does not have.  The information-schema answer is in the order
    the query asks for. *)
Definition info_rows : list InfoRow :=
  [ mkInfoRow "SALES" "CUSTOMERS_V" "ID" "NUMBER" None;
    mkInfoRow "SALES" "CUSTOMERS_V" "NAME" "TEXT" None;
    mkInfoRow "SALES" "OLD_ORDERS" "ID" "NUMBER" None;
    mkInfoRow "SALES" "ORDERS" "ID" "NUMBER" None;
    mkInfoRow "SALES" "ORDERS" "AMOUNT" "NUMBER" (Some "in cents") ].

Definition catalog_conn : SnowflakeConnection :=
  {| warehouse := Some "WH";
     dict_cursor _ := Fetched [];
     statement _ := None;
     show_cursor q :=
       if decide (q = "show tables in database")
       then Fetched [mkShowRow "ORDERS" "SALES" (Some "orders")]
       else Fetched [mkShowRow "CUSTOMERS_V" "SALES" None];
     pandas_cursor _ := Fetched info_rows |}.

Definition merged_rows : list MergedRow :=
  [ mkMergedRow "ORDERS" "SALES" (Some "orders") "ID" "NUMBER" None;
    mkMergedRow "ORDERS" "SALES" (Some "orders") "AMOUNT" "NUMBER" (Some "in cents");
    mkMergedRow "CUSTOMERS_V" "SALES" None "ID" "NUMBER" None;
    mkMergedRow "CUSTOMERS_V" "SALES" None "NAME" "TEXT" None ].

(** A connection on which every query runs into a network failure, and one
    on which every query is a syntax error. *)
Definition network_failure : PyExc :=
  DriverError "OperationalError" "250003: Failed to execute request".

Definition broken_conn : SnowflakeConnection :=
  {| warehouse := Some "WH";
     dict_cursor _ := Raises network_failure;
     statement _ := None;
     show_cursor _ := Fetched [];
     pandas_cursor _ := Fetched [] |}.

Definition syntax_error_conn : SnowflakeConnection :=
  {| warehouse := Some "WH";
     dict_cursor _ := Raises (ProgrammingError "syntax error line 1");
     statement _ := None;
     show_cursor _ := Fetched [];
     pandas_cursor _ := Fetched [] |}.

(** A connection that answers two rows, and one whose second row is a
    tuple. *)
Definition two_rows_conn : SnowflakeConnection :=
  {| warehouse := Some "WH";
     dict_cursor _ := Fetched [RDict [("ID", VInt 1); ("NAME", VStr "a")];
                               RDict [("ID", VInt 2); ("NAME", VStr "b")]];
     statement _ := None;
     show_cursor _ := Fetched [];
     pandas_cursor _ := Fetched [] |}.

Definition tuple_row_conn : SnowflakeConnection :=
  {| warehouse := Some "WH";
     dict_cursor _ := Fetched [RDict [("ID", VInt 1)]; ROther "(2,)"];
     statement _ := None;
     show_cursor _ := Fetched [];
     pandas_cursor _ := Fetched [] |}.

(** An environment with every credential, one without the password, and a
    driver that accepts every login; database [missing_db] does not
    exist. *)
Definition full_env : Env :=
  {| SNOWFLAKE_ROLE := Some "analyst"; SNOWFLAKE_USER := Some "alice";
     SNOWFLAKE_PASSWORD := Some "secret"; SNOWFLAKE_WAREHOUSE := Some "wh";
     SNOWFLAKE_HOST := None; DEFAULT_SESSION_TIMEOUT_SEC := 120 |}.

Definition env_without_password : Env :=
  {| SNOWFLAKE_ROLE := Some "analyst"; SNOWFLAKE_USER := Some "alice";
     SNOWFLAKE_PASSWORD := None; SNOWFLAKE_WAREHOUSE := Some "wh";
     SNOWFLAKE_HOST := None; DEFAULT_SESSION_TIMEOUT_SEC := 120 |}.

Definition session : SnowflakeConnection :=
  {| warehouse := Some "wh";
     dict_cursor _ := Fetched [];
     statement stmt :=
       if decide (stmt = "USE DATABASE missing_db")
       then Some (ProgrammingError "Database 'MISSING_DB' does not exist or not authorized.")
       else None;
     show_cursor _ := Fetched [];
     pandas_cursor _ := Fetched [] |}.

Definition accepting_driver : Driver := fun _ _ _ _ _ _ => Ok session.

Definition connector : SnowflakeConnector := {| account_name := "acct"; _max_workers := 1 |}.

End Examples.

(** * Notions used by the further properties *)

(** The row [r] gives no value under the name [k]. *)
Definition lacks (k : string) (r : Row) : Prop :=
  match r with
  | RDict items => dict_get items k = None
  | ROther _ => True
  end.

(** The row [r] is a name-keyed record with the value [v] under [k]. *)
Definition has_value (k : string) (r : Row) (v : Value) : Prop :=
  match r with
  | RDict items => dict_get items k = Some v
  | ROther _ => False
  end.

(** Reading the sampled column off one fetched row: [str(r[col_key])]. *)
Definition read_key (k : string) (r : Row) : M string :=
  let! v := getitem r k in ret (str v).

(** A name written with ASCII characters only; on such names [lower] is
    Python's [str.lower()]. *)
Definition ascii_name (s : string) : Prop :=
  Forall (fun c => (nat_of_ascii c < 128)%nat) (list_ascii_of_string s).

(** The (schema, table) pair of a row of each frame. *)
Definition show_key (r : ShowRow) : string * string := (schema_name r, name r).
Definition listing_key (l : ListingRow) : string * string :=
  (l_TABLE_SCHEMA l, l_TABLE_NAME l).
Definition info_key (r : InfoRow) : string * string := (i_TABLE_SCHEMA r, i_TABLE_NAME r).
(** The information-schema row that a merged row came from. *)
Definition info_part (row : MergedRow) : InfoRow :=
  {| i_TABLE_SCHEMA := TABLE_SCHEMA row;
     i_TABLE_NAME := TABLE_NAME row;
     i_COLUMN_NAME := COLUMN_NAME row;
     i_DATA_TYPE := DATA_TYPE row;
     i_COLUMN_COMMENT := COLUMN_COMMENT row |}.

(** Events that neither open nor close a session. *)
Definition session_neutral (t : list Event) : Prop :=
  Forall (fun ev => ev <> SessionOpened /\ ev <> SessionClosed) t.

(** The answer of the driver to the login that [_open_connection] makes
    with the credentials of the environment. *)
Definition login (env : Env) (drv : Driver) (self : SnowflakeConnector)
  : result SnowflakeConnection :=
  drv (default "" (SNOWFLAKE_USER env)) (default "" (SNOWFLAKE_PASSWORD env))
      (account_name self) (default "" (SNOWFLAKE_ROLE env))
      (default "" (SNOWFLAKE_WAREHOUSE env)) (SNOWFLAKE_HOST env).

(** The statements that configure a new session, in the order in which
    [_open_connection] issues them. *)
Definition use_database (db_name : string) : string := "USE DATABASE " +:+ db_name.
Definition use_schema (schema_name : string) : string := "USE SCHEMA " +:+ schema_name.
Definition set_query_tag : string :=
  "ALTER SESSION SET QUERY_TAG = 'SEMANTIC_MODEL_GENERATOR'".
Definition set_timeout (env : Env) : string :=
  "ALTER SESSION SET STATEMENT_TIMEOUT_IN_SECONDS = "
  +:+ str_int (DEFAULT_SESSION_TIMEOUT_SEC env).

(** The part of [_open_connection] that follows the login: the statements
    that configure the session of [connection]. *)
Definition session_setup (env : Env) (self : SnowflakeConnector) (db_name : string)
    (schema_name : option string) (connection : SnowflakeConnection)
  : M SnowflakeConnection :=
  do! (if truthy db_name then
         try_except (cursor_execute connection ("USE DATABASE " +:+ db_name))
           (fun _ => raise (ValueError
              ("Could not connect to database " +:+ db_name
               +:+ ". Does the database exist in " +:+ account_name self +:+ "?")))
       else ret tt) in
  do! (if truthy_opt schema_name then
         try_except (cursor_execute connection ("USE SCHEMA " +:+ default "" schema_name))
           (fun _ => raise (ValueError
              ("Could not connect to schema " +:+ default "" schema_name
               +:+ ". Does the schema exist in the " +:+ db_name +:+ " database?")))
       else ret tt) in
  do! (if truthy _QUERY_TAG then
         cursor_execute connection
           ("ALTER SESSION SET QUERY_TAG = '" +:+ _QUERY_TAG +:+ "'")
       else ret tt) in
  do! cursor_execute connection
        ("ALTER SESSION SET STATEMENT_TIMEOUT_IN_SECONDS = "
         +:+ str_int (DEFAULT_SESSION_TIMEOUT_SEC env)) in
  ret connection.

(** A row that is a name-keyed record with each name once and the value
    [v] under the name [k]. *)
Definition record_with (k : string) (r : Row) (v : Value) : Prop :=
  match r with
  | RDict items => NoDup (map fst items) /\ dict_get items k = Some v
  | ROther _ => False
  end.

(** The statement that attaches the default warehouse in [execute]. *)
Definition use_warehouse (wh : string) : string :=
  "use warehouse " +:+ replace_ascii "-" "_" wh.

(** * Further sample inputs *)

Module Scenarios.

(** A sample whose second row has another column name than the first. *)
Definition ragged_conn : SnowflakeConnection :=
  {| warehouse := Some "WH";
     dict_cursor _ := Fetched [RDict [("A", VStr "x")]; RDict [("B", VStr "y")]];
     statement _ := None;
     show_cursor _ := Fetched [];
     pandas_cursor _ := Fetched [] |}.

(** A connection that may not read the information schema. *)
Definition no_catalog_conn : SnowflakeConnection :=
  {| warehouse := Some "WH";
     dict_cursor _ := Fetched [];
     statement _ := None;
     show_cursor _ := Fetched [];
     pandas_cursor _ := Raises (ProgrammingError "Insufficient privileges") |}.

(** A session that accepts every statement, and one that refuses the
    statement timeout. *)
Definition open_session : SnowflakeConnection :=
  {| warehouse := Some "wh";
     dict_cursor _ := Fetched [];
     statement _ := None;
     show_cursor _ := Fetched [];
     pandas_cursor _ := Fetched [] |}.

Definition welcoming_driver : Driver := fun _ _ _ _ _ _ => Ok open_session.

Definition strict_session : SnowflakeConnection :=
  {| warehouse := Some "wh";
     dict_cursor _ := Fetched [];
     statement stmt :=
       if decide (stmt = "ALTER SESSION SET STATEMENT_TIMEOUT_IN_SECONDS = 120")
       then Some (ProgrammingError "invalid value [120] for parameter")
       else None;
     show_cursor _ := Fetched [];
     pandas_cursor _ := Fetched [] |}.

Definition strict_driver : Driver := fun _ _ _ _ _ _ => Ok strict_session.

(** A connection without a warehouse, an environment whose warehouse name
    has a hyphen and one without a warehouse. *)
Definition no_warehouse_conn : SnowflakeConnection :=
  {| warehouse := None;
     dict_cursor _ := Fetched [];
     statement _ := None;
     show_cursor _ := Fetched [];
     pandas_cursor _ := Fetched [] |}.

Definition hyphen_env : Env :=
  {| SNOWFLAKE_ROLE := Some "analyst"; SNOWFLAKE_USER := Some "alice";
     SNOWFLAKE_PASSWORD := Some "secret"; SNOWFLAKE_WAREHOUSE := Some "compute-wh";
     SNOWFLAKE_HOST := None; DEFAULT_SESSION_TIMEOUT_SEC := 120 |}.

Definition env_without_warehouse : Env :=
  {| SNOWFLAKE_ROLE := Some "analyst"; SNOWFLAKE_USER := Some "alice";
     SNOWFLAKE_PASSWORD := Some "secret"; SNOWFLAKE_WAREHOUSE := None;
     SNOWFLAKE_HOST := None; DEFAULT_SESSION_TIMEOUT_SEC := 120 |}.

End Scenarios.

(** * Facts about traced computations *)

Section monad_facts.

Lemma M_eta {A} (m : M A) : m = (trace m, outcome m).
Proof. by destruct m. Qed.

Lemma outcome_bind_ok {A B} (m : M A) (f : A -> M B) a :
  outcome m = Ok a -> outcome (bind m f) = outcome (f a).
Proof.
  destruct m as [t r]; simpl; intros ->; simpl.
  by destruct (f a).
Qed.

Lemma outcome_bind_inv {A B} (m : M A) (f : A -> M B) b :
  outcome (bind m f) = Ok b -> exists a, outcome m = Ok a /\ outcome (f a) = Ok b.
Proof.
  destruct m as [t [a|e]]; simpl; [|done].
  destruct (f a) as [t' r] eqn:E. simpl. intros ->. exists a. by rewrite E.
Qed.

Lemma elem_of_trace_bind_l {A B} (m : M A) (f : A -> M B) ev :
  ev ∈ trace m -> ev ∈ trace (bind m f).
Proof.
  destruct m as [t [a|e]]; simpl; [|done].
  destruct (f a). simpl. intros. apply elem_of_app. by left.
Qed.

Lemma elem_of_trace_bind_r {A B} (m : M A) (f : A -> M B) a ev :
  outcome m = Ok a -> ev ∈ trace (f a) -> ev ∈ trace (bind m f).
Proof.
  destruct m as [t r]; simpl. intros ->.
  destruct (f a). simpl. intros. apply elem_of_app. by right.
Qed.

Lemma mapM_length {A B} (f : A -> M B) (l : list A) (l' : list B) :
  outcome (mapM f l) = Ok l' -> length l' = length l.
Proof.
  revert l'. induction l as [|x l IH]; intros l'; simpl.
  - by intros [= <-].
  - destruct (f x) as [t1 [y|e]]; simpl; [|done].
    destruct (mapM f l) as [t2 [ys|e]]; simpl; [|done].
    intros [= <-]. simpl. f_equal. by apply IH.
Qed.

End monad_facts.

Ltac bind_inv H x Hx := apply outcome_bind_inv in H as (x & Hx & H).

(** * The stable sort on the index *)

Section sorting_facts.
Context {A : Type}.
Implicit Types (x : nat * A) (l : list (nat * A)).

Lemma insert_by_index_perm x l : insert_by_index x l ≡ₚ x :: l.
Proof.
  induction l as [|y l IH]; simpl; [done|].
  case_decide; [done|]. rewrite IH. apply perm_swap.
Qed.

Lemma sorted_by_index_perm l : sorted_by_index l ≡ₚ l.
Proof.
  induction l as [|x l IH]; simpl; [done|].
  by rewrite insert_by_index_perm, IH.
Qed.

Lemma insert_by_index_sorted x l :
  StronglySorted index_le l -> StronglySorted index_le (insert_by_index x l).
Proof.
  induction 1 as [|y l Hl IH Hy]; simpl.
  - repeat constructor.
  - case_decide as Hxy.
    + constructor; [by constructor|].
      constructor; [done|].
      eapply Forall_impl; [exact Hy|]. unfold index_le in *. intros; simpl in *; lia.
    + constructor; [done|].
      rewrite insert_by_index_perm. constructor; [|done].
      unfold index_le. lia.
Qed.

Lemma sorted_by_index_sorted l : StronglySorted index_le (sorted_by_index l).
Proof.
  induction l; simpl; [constructor|]. by apply insert_by_index_sorted.
Qed.

(** Sorting the results of the tasks [0 .. n-1], collected in any order,
    yields them by rising rank. *)
Lemma sorted_by_index_ranks (f : nat -> A) (completion : list nat) (n : nat) :
  completion ≡ₚ seq 0 n ->
  sorted_by_index (map (fun i => (i, f i)) completion) = map (fun i => (i, f i)) (seq 0 n).
Proof.
  intros Hperm.
  apply (StronglySorted_unique_strong index_le).
  - intros x1 x2 H1 H2 Hle1 Hle2.
    rewrite sorted_by_index_perm in H1.
    apply list_elem_of_fmap in H1 as (i & -> & _).
    apply list_elem_of_fmap in H2 as (j & -> & _).
    unfold index_le in *; simpl in *. assert (i = j) by lia. by subst.
  - apply sorted_by_index_sorted.
  - clear Hperm. generalize 0%nat.
    induction n as [|n IH]; intros s; simpl; constructor; [apply IH|].
    apply Forall_forall. intros x Hx.
    apply list_elem_of_fmap in Hx as (j & -> & Hj).
    apply list_elem_of_In, in_seq in Hj. unfold index_le; simpl; lia.
  - rewrite sorted_by_index_perm. by apply fmap_Permutation.
Qed.
End sorting_facts.

Lemma imap_as_map_seq {A B} (g : nat -> A -> B) (l : list A) (d : A) :
  imap g l = map (fun i => g i (nth i l d)) (seq 0 (length l)).
Proof.
  apply list_eq. intros i.
  rewrite list_lookup_imap, list_lookup_fmap.
  destruct (decide (i < length l)%nat) as [Hi|Hi].
  - rewrite lookup_seq_lt by done. simpl.
    destruct (lookup_lt_is_Some_2 l i Hi) as [x Hx]. rewrite Hx. simpl.
    by rewrite (nth_lookup_Some _ _ d _ Hx).
  - rewrite lookup_seq_ge by lia.
    by rewrite (lookup_ge_None_2 l i) by lia.
Qed.

(** * The column sampler *)

Lemma _get_column_representation_outcome conn s t c cm idx dt ndv :
  outcome (_get_column_representation conn s t c cm idx dt ndv)
  = Ok (mkColumn idx c cm dt (sampled conn s t c ndv)).
Proof.
  unfold _get_column_representation, sampled.
  case_decide; [|done].
  destruct (sample_body conn s t c ndv) as [tr [v|e]]; done.
Qed.

Lemma fetch_dict_rows_ok conn m1 m2 q rows :
  outcome (fetch_dict_rows conn m1 m2 q) = Ok rows -> dict_cursor conn q = Fetched rows.
Proof.
  unfold fetch_dict_rows. destruct (dict_cursor conn q); simpl; try done. by intros [= ->].
Qed.

Lemma sample_body_no_rows conn s t c ndv :
  dict_cursor conn (sample_query c s t ndv) = Fetched [] ->
  sample_body conn s t c ndv = ([Executed (sample_query c s t ndv)], Ok None).
Proof. unfold sample_body, fetch_dict_rows. by intros ->. Qed.

Lemma sample_body_raises conn s t c ndv e :
  dict_cursor conn (sample_query c s t ndv) = Raises e ->
  sample_body conn s t c ndv = ([Executed (sample_query c s t ndv)], Raise e).
Proof. unfold sample_body, fetch_dict_rows. by intros ->. Qed.

Lemma sample_body_some conn s t c ndv l :
  outcome (sample_body conn s t c ndv) = Ok (Some l) ->
  exists rows, dict_cursor conn (sample_query c s t ndv) = Fetched rows
               /\ rows <> [] /\ length l = length rows.
Proof.
  unfold sample_body. intros H.
  bind_inv H rows Hrows.
  apply fetch_dict_rows_ok in Hrows. exists rows. split; [done|].
  destruct rows as [|[items|other] rest]; [done| |done].
  split; [done|].
  bind_inv H col_key Hkey.
  apply outcome_bind_inv in H as (ys & Hys & [= <-]).
  by apply mapM_length in Hys.
Qed.

(** * The table assembler *)

Lemma _get_col_outcome conn s t ndv i row :
  outcome (_get_col conn s t ndv i row) = Ok (column_of conn s t ndv i row).
Proof. apply _get_column_representation_outcome. Qed.

Lemma collected_in_completion_order conn s t ndv (df : list MergedRow) d completion :
  Forall (fun i => i < length df)%nat completion ->
  outcome
    (mapM (fun fc : M Column * nat => let! column := fc.1 in ret (fc.2, column))
       (as_completed
          (imap (fun col_index column_row =>
                   (_get_col conn s t ndv col_index column_row, col_index)) df)
          completion))
  = Ok (map (fun i => (i, column_of conn s t ndv i (nth i df d))) completion).
Proof.
  induction 1 as [|i completion Hi _ IH]; [done|].
  unfold as_completed in *. simpl.
  destruct (lookup_lt_is_Some_2 df i Hi) as [row Hrow].
  rewrite list_lookup_imap, Hrow. simpl.
  rewrite (nth_lookup_Some _ _ d _ Hrow).
  erewrite outcome_bind_ok; last first.
  { erewrite outcome_bind_ok by apply _get_col_outcome. done. }
  erewrite outcome_bind_ok by exact IH. done.
Qed.

Lemma get_table_representation_outcome conn s t ti ndv df row0 mw completion :
  head df = Some row0 -> 1 <= mw -> completion ≡ₚ seq 0 (length df) ->
  outcome (get_table_representation conn s t ti ndv df mw completion)
  = Ok {| id_ := ti; tbl_name := t; tbl_comment := TABLE_COMMENT row0;
          columns := imap (column_of conn s t ndv) df |}.
Proof.
  intros Hhead Hmw Hperm.
  destruct df as [|r df']; [done|]. injection Hhead as ->.
  unfold get_table_representation.
  erewrite outcome_bind_ok by done.
  unfold ThreadPoolExecutor. case_decide; [lia|].
  erewrite outcome_bind_ok by done.
  erewrite outcome_bind_ok; last first.
  { apply (collected_in_completion_order _ _ _ _ _ row0).
    apply Forall_forall. intros i Hi. rewrite Hperm in Hi.
    apply list_elem_of_In, in_seq in Hi. lia. }
  simpl outcome. do 2 f_equal.
  rewrite (sorted_by_index_ranks _ _ _ Hperm).
  rewrite (imap_as_map_seq _ _ row0).
  rewrite map_map. done.
Qed.

(** C1: for a non-empty column row-set, at least one worker and any order
    in which the sampling tasks complete, [get_table_representation]
    returns the table whose columns are those of the rows, each at the rank
    of its row and with that rank as its id; the result with one worker,
    under any completion order, is equal to it. *)
Theorem columns_in_ordinal_order conn s t ti ndv df mw completion :
  df <> [] -> 1 <= mw -> completion ≡ₚ seq 0 (length df) ->
  (exists row0, head df = Some row0 /\
     outcome (get_table_representation conn s t ti ndv df mw completion)
     = Ok {| id_ := ti; tbl_name := t; tbl_comment := TABLE_COMMENT row0;
             columns := imap (column_of conn s t ndv) df |})
  /\ (forall completion1, completion1 ≡ₚ seq 0 (length df) ->
        outcome (get_table_representation conn s t ti ndv df 1 completion1)
        = outcome (get_table_representation conn s t ti ndv df mw completion)).
Proof.
  intros Hdf Hmw Hperm.
  destruct df as [|row0 df'] eqn:E; [done|]. rewrite <- E in *.
  assert (head df = Some row0) as Hhead by (by rewrite E).
  split.
  - exists row0. split; [done|]. by apply get_table_representation_outcome.
  - intros completion1 Hperm1.
    rewrite (get_table_representation_outcome _ _ _ _ _ _ row0 1 completion1) by (done || lia).
    by rewrite (get_table_representation_outcome _ _ _ _ _ _ row0 mw completion).
Qed.

Lemma columns_in_ordinal_order_witness :
  (Examples.columns_df <> [] /\ 1 <= 8
   /\ [2; 0; 1]%nat ≡ₚ seq 0 (length Examples.columns_df))
  /\ ((exists row0, head Examples.columns_df = Some row0 /\
         outcome (get_table_representation Examples.sampling_conn "S" "T" 7 2
                    Examples.columns_df 8 [2; 0; 1]%nat)
         = Ok {| id_ := 7; tbl_name := "T"; tbl_comment := TABLE_COMMENT row0;
                 columns := imap (column_of Examples.sampling_conn "S" "T" 2)
                              Examples.columns_df |})
      /\ (forall completion1, completion1 ≡ₚ seq 0 (length Examples.columns_df) ->
            outcome (get_table_representation Examples.sampling_conn "S" "T" 7 2
                       Examples.columns_df 1 completion1)
            = outcome (get_table_representation Examples.sampling_conn "S" "T" 7 2
                         Examples.columns_df 8 [2; 0; 1]%nat))).
Proof.
  assert (Examples.columns_df <> []) as H1 by discriminate.
  assert (1 <= 8) as H2 by lia.
  assert ([2; 0; 1]%nat ≡ₚ seq 0 (length Examples.columns_df)) as H3.
  { simpl. eapply perm_trans; [apply perm_swap|]. apply perm_skip, perm_swap. }
  split; [by repeat split|].
  exact (columns_in_ordinal_order Examples.sampling_conn "S" "T" 7 2
           Examples.columns_df 8 [2; 0; 1]%nat H1 H2 H3).
Defined.

(** C2: when the sampling of one column raises, whatever the exception,
    table assembly still returns a table with one column per row; the
    failing column is there without sample values and every column whose
    sampling returned keeps what it returned. *)
Theorem sampling_failure_is_isolated conn s t ti ndv df mw completion j rowj e :
  0 < ndv -> 1 <= mw -> completion ≡ₚ seq 0 (length df) ->
  df !! j = Some rowj ->
  outcome (sample_body conn s t (COLUMN_NAME rowj) ndv) = Raise e ->
  exists tbl,
    outcome (get_table_representation conn s t ti ndv df mw completion) = Ok tbl
    /\ length (columns tbl) = length df
    /\ columns tbl !! j
       = Some (mkColumn (Z.of_nat j) (COLUMN_NAME rowj) (COLUMN_COMMENT rowj)
                 (DATA_TYPE rowj) None)
    /\ forall i rowi vs,
         df !! i = Some rowi ->
         outcome (sample_body conn s t (COLUMN_NAME rowi) ndv) = Ok vs ->
         columns tbl !! i
         = Some (mkColumn (Z.of_nat i) (COLUMN_NAME rowi) (COLUMN_COMMENT rowi)
                   (DATA_TYPE rowi) vs).
Proof.
  intros Hndv Hmw Hperm Hj Hfail.
  destruct df as [|row0 df'] eqn:E; [done|]. rewrite <- E in *.
  eexists. split.
  { apply (get_table_representation_outcome _ _ _ _ _ _ row0); [by rewrite E|done..]. }
  simpl. split; [by rewrite length_imap|]. split.
  - rewrite list_lookup_imap, Hj. simpl. unfold column_of, sampled.
    case_decide; [|lia]. by rewrite Hfail.
  - intros i rowi vs Hi Hok.
    rewrite list_lookup_imap, Hi. simpl. unfold column_of, sampled.
    case_decide; [|lia]. by rewrite Hok.
Qed.

Lemma sampling_failure_is_isolated_witness :
  exists tbl,
    outcome (get_table_representation Examples.sampling_conn "S" "T" 7 2
               Examples.columns_df 8 [2; 0; 1]%nat) = Ok tbl
    /\ columns tbl !! 0%nat = Some (mkColumn 0 "A" None "TEXT" (Some ["x"; "y"]))
    /\ columns tbl !! 1%nat = Some (mkColumn 1 "B" (Some "refused") "TEXT" None)
    /\ columns tbl !! 2%nat = Some (mkColumn 2 "C" None "NUMBER" (Some ["1"; "2"])).
Proof.
  assert (0 < 2) as H1 by lia.
  assert (1 <= 8) as H2 by lia.
  assert ([2; 0; 1]%nat ≡ₚ seq 0 (length Examples.columns_df)) as H3.
  { simpl. eapply perm_trans; [apply perm_swap|]. apply perm_skip, perm_swap. }
  destruct (sampling_failure_is_isolated Examples.sampling_conn "S" "T" 7 2
              Examples.columns_df 8 [2; 0; 1]%nat 1
              (mkMergedRow "T" "S" (Some "a table") "B" "TEXT" (Some "refused"))
              (ProgrammingError "SQL compilation error: invalid identifier B")
              H1 H2 H3 eq_refl eq_refl)
    as (tbl & Htbl & _ & HB & Hothers).
  exists tbl. split; [exact Htbl|]. split; [|split].
  - exact (Hothers 0%nat _ (Some ["x"; "y"]) eq_refl eq_refl).
  - exact HB.
  - exact (Hothers 2%nat _ (Some ["1"; "2"]) eq_refl eq_refl).
Defined.

(** C7: with a sample size of zero or less the column sampler hands no
    statement to the connection (it causes no event at all) and returns the
    column with the index, name, comment and datatype it was given and no
    sample values. *)
Theorem sampling_disabled conn s t c cm idx dt ndv :
  ndv <= 0 ->
  statements (trace (_get_column_representation conn s t c cm idx dt ndv)) = []
  /\ _get_column_representation conn s t c cm idx dt ndv
     = ([], Ok (mkColumn idx c cm dt None)).
Proof.
  intros Hndv. unfold _get_column_representation.
  case_decide; [lia|]. done.
Qed.

Lemma sampling_disabled_witness :
  -3 <= 0
  /\ statements (trace (_get_column_representation Examples.sampling_conn "S" "T" "A"
                          (Some "first") 0 "TEXT" (-3))) = []
  /\ _get_column_representation Examples.sampling_conn "S" "T" "A" (Some "first") 0 "TEXT" (-3)
     = ([], Ok (mkColumn 0 "A" (Some "first") "TEXT" None)).
Proof.
  assert (-3 <= 0) as H by lia.
  exact (conj H (sampling_disabled Examples.sampling_conn "S" "T" "A" (Some "first") 0
                   "TEXT" (-3) H)).
Defined.

(** C10: the column sampler always returns a column with the fields it was
    given; its sample values are absent when the query returns no row, when
    sampling is off and when the query raises; they are a list only when
    the sample size is positive and the query returned at least one row,
    and the list then has one string per row. *)
Theorem values_only_from_nonempty_sample conn s t c cm idx dt ndv :
  exists tr vals,
    _get_column_representation conn s t c cm idx dt ndv
    = (tr, Ok (mkColumn idx c cm dt vals))
    /\ (0 < ndv -> dict_cursor conn (sample_query c s t ndv) = Fetched [] -> vals = None)
    /\ (ndv <= 0 -> vals = None)
    /\ (forall e, dict_cursor conn (sample_query c s t ndv) = Raises e -> vals = None)
    /\ (forall l, vals = Some l ->
          0 < ndv /\ l <> [] /\
          exists rows, dict_cursor conn (sample_query c s t ndv) = Fetched rows
                       /\ rows <> [] /\ length l = length rows).
Proof.
  exists (trace (_get_column_representation conn s t c cm idx dt ndv)),
         (sampled conn s t c ndv).
  split.
  { rewrite <- _get_column_representation_outcome. apply M_eta. }
  unfold sampled. repeat split.
  - intros ? Hq. case_decide; [|done]. by rewrite (sample_body_no_rows _ _ _ _ _ Hq).
  - intros ?. case_decide; [lia|done].
  - intros e Hq. case_decide; [|done]. by rewrite (sample_body_raises _ _ _ _ _ _ Hq).
  - case_decide; [done|]. done.
  - case_decide; [|done].
    destruct (outcome (sample_body conn s t c ndv)) as [v|e] eqn:Hb; [|done].
    subst v. apply sample_body_some in Hb as (rows & _ & Hne & Hlen).
    intros ->. by destruct rows.
  - case_decide; [|done].
    destruct (outcome (sample_body conn s t c ndv)) as [v|e] eqn:Hb; [|done].
    subst v. by apply sample_body_some.
Qed.

Lemma values_only_from_nonempty_sample_witness :
  exists tr,
    _get_column_representation Examples.sampling_conn "S" "T" "D" None 3 "TEXT" 2
    = (tr, Ok (mkColumn 3 "D" None "TEXT" None)).
Proof.
  destruct (values_only_from_nonempty_sample Examples.sampling_conn "S" "T" "D" None 3
              "TEXT" 2) as (tr & vals & Heq & Hempty & _).
  exists tr. rewrite Heq.
  assert (0 < 2) as H by lia.
  rewrite (Hempty H eq_refl). reflexivity.
Defined.

(** * The generic query executor *)

Lemma append_value_lookup d kv k :
  default [] (append_value d kv !! k)
  = default [] (d !! k) ++ (if decide (kv.1 = k) then [kv.2] else []).
Proof.
  unfold append_value. destruct (decide (kv.1 = k)) as [->|Hne].
  - by rewrite lookup_insert_eq.
  - rewrite lookup_insert_ne by done. by rewrite app_nil_r.
Qed.

Lemma append_value_no_empty d kv : no_empty_column d -> no_empty_column (append_value d kv).
Proof.
  intros Hd k. unfold append_value. destruct (decide (kv.1 = k)) as [->|Hne].
  - rewrite lookup_insert_eq. intros [= H]. symmetry in H. by apply app_cons_not_nil in H.
  - rewrite lookup_insert_ne by done. apply Hd.
Qed.

Lemma foldl_append_value_lookup items d k :
  default [] (foldl append_value d items !! k) = default [] (d !! k) ++ cells_of k items.
Proof.
  revert d. induction items as [|kv items IH]; intros d; simpl.
  - unfold cells_of. simpl. by rewrite app_nil_r.
  - rewrite IH, append_value_lookup, <- app_assoc. f_equal.
    unfold cells_of. rewrite filter_cons. by case_decide.
Qed.

Lemma foldl_append_value_no_empty items d :
  no_empty_column d -> no_empty_column (foldl append_value d items).
Proof.
  revert d. induction items as [|kv items IH]; intros d Hd; simpl; [done|].
  by apply IH, append_value_no_empty.
Qed.

Lemma collect_rows_dicts rows d :
  Forall is_dict rows -> no_empty_column d ->
  exists d', collect_rows d rows = ([], Ok d')
             /\ no_empty_column d'
             /\ forall k, default [] (d' !! k) = default [] (d !! k) ++ column_cells k rows.
Proof.
  intros Hrows. revert d. induction Hrows as [|[items|other] rows Hr _ IH]; intros d Hd.
  - exists d. simpl. split; [done|]. split; [done|]. intros k. by rewrite app_nil_r.
  - destruct (IH (foldl append_value d items)) as (d' & Hc & Hne & Hk).
    { by apply foldl_append_value_no_empty. }
    exists d'. simpl. split; [done|]. split; [done|].
    intros k. by rewrite Hk, foldl_append_value_lookup, <- app_assoc.
  - done.
Qed.

Lemma collect_rows_other rows d :
  ~ Forall is_dict rows ->
  exists rendering, ROther rendering ∈ rows
    /\ collect_rows d rows
       = ([], Raise (ValueError ("Expected a dict for row object. Instead passed "
                                 +:+ rendering))).
Proof.
  revert d. induction rows as [|[items|other] rows IH]; intros d Hn.
  - destruct Hn. constructor.
  - destruct (IH (foldl append_value d items)) as (rendering & Hin & Hc).
    { intros Hall. apply Hn. by constructor. }
    exists rendering. split; [by right|done].
  - exists other. split; [by left|done].
Qed.

Lemma execute_of_body env conn q t r :
  execute_body env conn q = (t, r) ->
  execute env conn q
  = match r with
    | Ok rows => (t ++ trace (collect_rows ∅ rows), outcome (collect_rows ∅ rows))
    | Raise (ProgrammingError m) => (t, Raise (ValueError ("Query Error: " +:+ m)))
    | Raise e => (t, Raise e)
    end.
Proof.
  intros Hb. unfold execute. rewrite Hb.
  destruct r as [rows|e]; simpl.
  - by destruct (collect_rows ∅ rows).
  - destruct e; simpl; by rewrite ?app_nil_r.
Qed.

(** C5, as the claim states it, fails: a driver error that is not a
    [ProgrammingError] leaves [execute] as it is, not as a query error. *)
Lemma execute_other_errors_not_wrapped :
  dict_cursor Examples.broken_conn "select 1" = Raises Examples.network_failure
  /\ outcome (execute Examples.full_env Examples.broken_conn "select 1")
     = Raise (DriverError "OperationalError" "250003: Failed to execute request")
  /\ forall msg, outcome (execute Examples.full_env Examples.broken_conn "select 1")
                 <> Raise (ValueError msg).
Proof. split; [reflexivity|]. split; [reflexivity|]. intros msg. discriminate. Qed.

(** C5, amended: [execute] raises the query error, which carries the text
    of the driver error, when the body of its [try] raises a
    [ProgrammingError]; any other exception of the body leaves [execute]
    unchanged.  When the body returns rows that are all name-keyed records,
    [execute] returns the mapping that has, for each column name, the
    values of that column in row order (and no entry for a name no row
    has); when some row is not a name-keyed record it raises the data-shape
    error about such a row. *)
Theorem execute_wraps_programming_errors env conn q :
  (forall t m, execute_body env conn q = (t, Raise (ProgrammingError m)) ->
     execute env conn q = (t, Raise (ValueError ("Query Error: " +:+ m))))
  /\ (forall t e, execute_body env conn q = (t, Raise e) ->
        (forall m, e <> ProgrammingError m) ->
        execute env conn q = (t, Raise e))
  /\ (forall t rows, execute_body env conn q = (t, Ok rows) ->
        Forall is_dict rows ->
        exists d, execute env conn q = (t, Ok d)
          /\ forall k, default [] (d !! k) = column_cells k rows
                       /\ (d !! k = None <-> column_cells k rows = []))
  /\ (forall t rows, execute_body env conn q = (t, Ok rows) ->
        ~ Forall is_dict rows ->
        exists rendering, ROther rendering ∈ rows
          /\ execute env conn q
             = (t, Raise (ValueError ("Expected a dict for row object. Instead passed "
                                      +:+ rendering)))).
Proof.
  repeat split.
  - intros t m Hb. by rewrite (execute_of_body _ _ _ _ _ Hb).
  - intros t e Hb Hne. rewrite (execute_of_body _ _ _ _ _ Hb).
    destruct e; try done. by destruct (Hne msg).
  - intros t rows Hb Hrows.
    destruct (collect_rows_dicts rows ∅ Hrows) as (d & Hc & Hne & Hk).
    { intros k. by rewrite lookup_empty. }
    exists d. rewrite (execute_of_body _ _ _ _ _ Hb), Hc. simpl. rewrite app_nil_r.
    split; [done|]. intros k. specialize (Hk k). rewrite lookup_empty in Hk. simpl in Hk.
    split; [done|]. rewrite <- Hk. specialize (Hne k).
    destruct (d !! k) as [[|v vs]|]; simpl; split; try done.
  - intros t rows Hb Hrows.
    destruct (collect_rows_other rows ∅ Hrows) as (rendering & Hin & Hc).
    exists rendering. split; [done|].
    rewrite (execute_of_body _ _ _ _ _ Hb), Hc. simpl. by rewrite app_nil_r.
Qed.

Lemma execute_wraps_programming_errors_witness :
  outcome (execute Examples.full_env Examples.syntax_error_conn "selec 1")
  = Raise (ValueError "Query Error: syntax error line 1")
  /\ (exists d, outcome (execute Examples.full_env Examples.two_rows_conn "select 1") = Ok d
                /\ default [] (d !! "ID") = [VInt 1; VInt 2]
                /\ default [] (d !! "NAME") = [VStr "a"; VStr "b"]
                /\ d !! "AGE" = None)
  /\ outcome (execute Examples.full_env Examples.broken_conn "select 1")
     = Raise Examples.network_failure.
Proof.
  split; [|split].
  - destruct (execute_wraps_programming_errors Examples.full_env Examples.syntax_error_conn
                "selec 1") as (Hpe & _).
    rewrite (Hpe _ "syntax error line 1" eq_refl). reflexivity.
  - destruct (execute_wraps_programming_errors Examples.full_env Examples.two_rows_conn
                "select 1") as (_ & _ & Hrows & _).
    destruct (Hrows _ _ eq_refl) as (d & Hd & Hk).
    { repeat constructor. }
    exists d. rewrite Hd. split; [reflexivity|].
    split; [exact (proj1 (Hk "ID"))|].
    split; [exact (proj1 (Hk "NAME"))|].
    exact (proj2 (proj2 (Hk "AGE")) eq_refl).
  - destruct (execute_wraps_programming_errors Examples.full_env Examples.broken_conn
                "select 1") as (_ & Hother & _).
    rewrite (Hother _ Examples.network_failure eq_refl); [reflexivity|].
    intros m. discriminate.
Defined.

(** * The metadata query layer *)

Lemma plain_cursor_ok {A} (answer : string -> Answer A) msg q (rows : A) :
  outcome (plain_cursor answer msg q) = Ok rows -> answer q = Fetched rows.
Proof.
  unfold plain_cursor. destruct (answer q); simpl; try done. by intros [= ->].
Qed.

Lemma plain_cursor_fetched {A} (answer : string -> Answer A) msg q (rows : A) :
  answer q = Fetched rows -> plain_cursor answer msg q = ([Executed q], Ok rows).
Proof. unfold plain_cursor. by intros ->. Qed.

Lemma get_valid_schemas_tables_columns_df_ok conn ts tn df :
  outcome (get_valid_schemas_tables_columns_df conn ts tn) = Ok df ->
  exists info tables views,
    pandas_cursor conn (catalog_query ts tn) = Fetched info
    /\ show_cursor conn "show tables in database" = Fetched tables
    /\ show_cursor conn "show views in database" = Fetched views
    /\ df = merge_inner (map listing_row (tables ++ views)) info.
Proof.
  unfold get_valid_schemas_tables_columns_df, _fetch_valid_tables_and_views, _get_df.
  intros H.
  apply outcome_bind_inv in H as (? & _ & H).
  apply outcome_bind_inv in H as (info & Hinfo%plain_cursor_ok & H).
  apply outcome_bind_inv in H as (listing & Hl & [= <-]).
  apply outcome_bind_inv in Hl as (tbls & Ht & Hl).
  apply outcome_bind_inv in Hl as (vws & Hv & [= <-]).
  apply outcome_bind_inv in Ht as (tables & Ht%plain_cursor_ok & [= <-]).
  apply outcome_bind_inv in Hv as (views & Hv%plain_cursor_ok & [= <-]).
  exists info, tables, views. repeat split; try done.
  by rewrite map_app.
Qed.

Lemma elem_of_merge_inner row left right :
  row ∈ merge_inner left right <->
  exists l r, l ∈ left /\ r ∈ right /\ same_object l r = true /\ row = joined l r.
Proof.
  unfold merge_inner. rewrite list_elem_of_In, in_flat_map. split.
  - intros (l & Hl & Hrow). apply in_map_iff in Hrow as (r & <- & Hr).
    apply list_elem_of_In, list_elem_of_filter in Hr as [Hsame Hr].
    exists l, r. by rewrite list_elem_of_In.
  - intros (l & r & Hl & Hr & Hsame & ->). exists l. split; [by apply list_elem_of_In|].
    apply in_map, list_elem_of_In, list_elem_of_filter. done.
Qed.

Lemma rows_of_sorted (R : relation InfoRow) l info :
  StronglySorted R info -> StronglySorted R (rows_of l info).
Proof.
  unfold rows_of. induction 1 as [|r info' Hs IH Hr]; [constructor|].
  rewrite filter_cons. case_decide; [|done].
  constructor; [done|].
  apply Forall_forall. intros x [_ Hx]%list_elem_of_filter.
  by apply (proj1 (Forall_forall _ _) Hr).
Qed.

(** C6: every row that [get_valid_schemas_tables_columns_df] returns has
    its (schema, table) pair both in the live listing (tables or views) and
    in the information-schema answer; a pair that only the information
    schema has is in no returned row. *)
Theorem stale_catalog_entries_are_excluded conn ts tn df row :
  outcome (get_valid_schemas_tables_columns_df conn ts tn) = Ok df ->
  row ∈ df ->
  exists info tables views,
    pandas_cursor conn (catalog_query ts tn) = Fetched info
    /\ show_cursor conn "show tables in database" = Fetched tables
    /\ show_cursor conn "show views in database" = Fetched views
    /\ (exists l, l ∈ tables ++ views
                  /\ schema_name l = TABLE_SCHEMA row /\ name l = TABLE_NAME row)
    /\ (exists r, r ∈ info
                  /\ i_TABLE_SCHEMA r = TABLE_SCHEMA row /\ i_TABLE_NAME r = TABLE_NAME row).
Proof.
  intros Hok Hrow.
  apply get_valid_schemas_tables_columns_df_ok in Hok
    as (info & tables & views & Hi & Ht & Hv & ->).
  exists info, tables, views. repeat split; try done.
  - apply elem_of_merge_inner in Hrow as (l & r & Hl & _ & _ & ->).
    apply list_elem_of_fmap in Hl as (sr & -> & Hsr). by exists sr.
  - apply elem_of_merge_inner in Hrow as (l & r & _ & Hr & Hsame & ->).
    exists r. split; [done|]. unfold same_object in Hsame.
    apply bool_decide_eq_true in Hsame as [H1 H2]. simpl. by rewrite H1, H2.
Qed.

Lemma stale_catalog_entries_are_excluded_witness :
  outcome (get_valid_schemas_tables_columns_df Examples.catalog_conn None None)
  = Ok Examples.merged_rows
  /\ mkMergedRow "ORDERS" "SALES" (Some "orders") "ID" "NUMBER" None ∈ Examples.merged_rows
  /\ exists info tables views,
       pandas_cursor Examples.catalog_conn (catalog_query None None) = Fetched info
       /\ show_cursor Examples.catalog_conn "show tables in database" = Fetched tables
       /\ show_cursor Examples.catalog_conn "show views in database" = Fetched views
       /\ (exists l, l ∈ tables ++ views /\ schema_name l = "SALES" /\ name l = "ORDERS")
       /\ (exists r, r ∈ info /\ i_TABLE_SCHEMA r = "SALES" /\ i_TABLE_NAME r = "ORDERS").
Proof.
  assert (outcome (get_valid_schemas_tables_columns_df Examples.catalog_conn None None)
          = Ok Examples.merged_rows) as H1 by reflexivity.
  assert (mkMergedRow "ORDERS" "SALES" (Some "orders") "ID" "NUMBER" None
          ∈ Examples.merged_rows) as H2 by left.
  split; [exact H1|]. split; [exact H2|].
  exact (stale_catalog_entries_are_excluded Examples.catalog_conn None None
           Examples.merged_rows _ H1 H2).
Defined.

(** C3, as the claim states it, fails: the returned rows are not in the
    order of schema then table, although the information-schema answer
    is. *)
Lemma result_not_ordered_by_schema_table :
  pandas_cursor Examples.catalog_conn (catalog_query None None) = Fetched Examples.info_rows
  /\ info_ordered_by_schema_table Examples.info_rows
  /\ outcome (get_valid_schemas_tables_columns_df Examples.catalog_conn None None)
     = Ok Examples.merged_rows
  /\ ~ ordered_by_schema_table Examples.merged_rows.
Proof.
  split; [reflexivity|]. split; [|split; [reflexivity|]].
  - unfold info_ordered_by_schema_table, Examples.info_rows.
    repeat (constructor; [|repeat (constructor; [by vm_compute; auto|]); constructor]).
    constructor.
  - unfold ordered_by_schema_table, Examples.merged_rows. intros H.
    apply StronglySorted_inv in H as [_ H].
    apply Forall_inv_tail, Forall_inv in H. simpl in H.
    destruct H as [[H _]|[_ H]]; [done|]. by vm_compute in H.
Qed.

Lemma distinct_keys_elsewhere {A B} (f : A -> B) (before after : list A) (x y : A) :
  NoDup (map f (before ++ x :: after)) -> y ∈ before ++ after -> f y <> f x.
Proof.
  rewrite map_app. simpl. intros Hnd Hy Heq.
  apply NoDup_app in Hnd as (_ & Hbefore & Hafter).
  apply NoDup_cons in Hafter as [Hafter _].
  apply elem_of_app in Hy as [Hy|Hy].
  - apply (Hbefore (f y)); [by apply list_elem_of_fmap_2|]. rewrite Heq. by left.
  - apply Hafter. rewrite <- Heq. by apply list_elem_of_fmap_2.
Qed.

Lemma merge_inner_rows_of_listed l info row :
  row ∈ map (joined (listing_row l)) (rows_of (listing_row l) info) ->
  (TABLE_SCHEMA row, TABLE_NAME row) = show_key l.
Proof. intros (r & -> & _)%list_elem_of_fmap. reflexivity. Qed.

(** C3, amended: when no (schema, table) pair occurs twice in the live
    listing, the returned rows follow that listing, the tables of
    [show tables] first and the views of [show views] after them, each in
    listing order; the rows of one listed object are together (the rows
    before and after them belong to other objects) and keep the order of the
    information-schema answer, so that they are sorted by whatever that
    answer is sorted by. *)
Theorem rows_follow_the_live_listing conn ts tn df tables views info :
  outcome (get_valid_schemas_tables_columns_df conn ts tn) = Ok df ->
  show_cursor conn "show tables in database" = Fetched tables ->
  show_cursor conn "show views in database" = Fetched views ->
  pandas_cursor conn (catalog_query ts tn) = Fetched info ->
  NoDup (map show_key (tables ++ views)) ->
  df = flat_map (fun l => map (joined l) (rows_of l info))
         (map listing_row tables ++ map listing_row views)
  /\ (forall before l after,
        tables ++ views = before ++ l :: after ->
        df = flat_map (fun l' => map (joined l') (rows_of l' info)) (map listing_row before)
             ++ map (joined (listing_row l)) (rows_of (listing_row l) info)
             ++ flat_map (fun l' => map (joined l') (rows_of l' info))
                  (map listing_row after)
        /\ (forall row,
              row ∈ map (joined (listing_row l)) (rows_of (listing_row l) info) ->
              (TABLE_SCHEMA row, TABLE_NAME row) = show_key l)
        /\ (forall row,
              row ∈ flat_map (fun l' => map (joined l') (rows_of l' info))
                      (map listing_row before)
                    ++ flat_map (fun l' => map (joined l') (rows_of l' info))
                         (map listing_row after) ->
              (TABLE_SCHEMA row, TABLE_NAME row) <> show_key l))
  /\ (forall (R : relation InfoRow) l,
        StronglySorted R info -> StronglySorted R (rows_of l info)).
Proof.
  intros Hok Ht Hv Hi Hnd.
  apply get_valid_schemas_tables_columns_df_ok in Hok
    as (info' & tables' & views' & Hi' & Ht' & Hv' & ->).
  rewrite Hi in Hi'. rewrite Ht in Ht'. rewrite Hv in Hv'.
  injection Hi' as <-. injection Ht' as <-. injection Hv' as <-.
  split; [rewrite map_app; reflexivity|]. split; [|intros R l; apply rows_of_sorted].
  intros before l after Hsplit. rewrite Hsplit in Hnd |- *.
  split; [|split].
  - unfold merge_inner, rows_of. rewrite map_app, flat_map_app. reflexivity.
  - apply merge_inner_rows_of_listed.
  - intros row Hrow.
    assert (exists l', l' ∈ before ++ after
                       /\ (TABLE_SCHEMA row, TABLE_NAME row) = show_key l')
      as (l' & Hl' & ->).
    { apply elem_of_app in Hrow as [Hrow|Hrow];
        apply (elem_of_merge_inner row _ info) in Hrow as (lr & r & Hlr & _ & _ & ->);
        apply list_elem_of_fmap in Hlr as (l' & -> & Hl');
        exists l'; (split; [apply elem_of_app; auto|reflexivity]). }
    by apply (distinct_keys_elsewhere show_key before after).
Qed.

Lemma rows_follow_the_live_listing_witness :
  Examples.merged_rows
  = flat_map (fun l => map (joined l) (rows_of l Examples.info_rows))
      (map listing_row [mkShowRow "ORDERS" "SALES" (Some "orders")]
       ++ map listing_row [mkShowRow "CUSTOMERS_V" "SALES" None])
  /\ (forall before l after,
        [mkShowRow "ORDERS" "SALES" (Some "orders")]
        ++ [mkShowRow "CUSTOMERS_V" "SALES" None] = before ++ l :: after ->
        Examples.merged_rows
        = flat_map (fun l' => map (joined l') (rows_of l' Examples.info_rows))
            (map listing_row before)
          ++ map (joined (listing_row l)) (rows_of (listing_row l) Examples.info_rows)
          ++ flat_map (fun l' => map (joined l') (rows_of l' Examples.info_rows))
               (map listing_row after)
        /\ (forall row,
              row ∈ map (joined (listing_row l)) (rows_of (listing_row l) Examples.info_rows) ->
              (TABLE_SCHEMA row, TABLE_NAME row) = show_key l)
        /\ (forall row,
              row ∈ flat_map (fun l' => map (joined l') (rows_of l' Examples.info_rows))
                      (map listing_row before)
                    ++ flat_map (fun l' => map (joined l') (rows_of l' Examples.info_rows))
                         (map listing_row after) ->
              (TABLE_SCHEMA row, TABLE_NAME row) <> show_key l))
  /\ (forall (R : relation InfoRow) l,
        StronglySorted R Examples.info_rows ->
        StronglySorted R (rows_of l Examples.info_rows)).
Proof.
  assert (outcome (get_valid_schemas_tables_columns_df Examples.catalog_conn None None)
          = Ok Examples.merged_rows) as H1 by reflexivity.
  assert (NoDup (map show_key ([mkShowRow "ORDERS" "SALES" (Some "orders")]
                               ++ [mkShowRow "CUSTOMERS_V" "SALES" None]))) as Hnd.
  { simpl. apply NoDup_cons. split; [|apply NoDup_singleton].
    intros Hin. apply list_elem_of_singleton in Hin. discriminate. }
  exact (rows_follow_the_live_listing Examples.catalog_conn None None
           Examples.merged_rows _ _ _ H1 eq_refl eq_refl eq_refl Hnd).
Defined.

(** C8: with table names and no schema (unset or empty) the function logs
    its warning first, issues the catalog query of the call without any
    filter and from there on behaves as that call: same statements, same
    result; when the connection answers the three queries it returns the
    merged rows. *)
Theorem table_names_without_schema_are_ignored conn ts names :
  truthy_opt ts = false -> names <> [] ->
  catalog_query ts (Some names) = catalog_query None None
  /\ get_valid_schemas_tables_columns_df conn ts (Some names)
     = (Logged WARNING
          "Provided table_name without table_schema, cannot filter to fetch the specific table"
        :: trace (get_valid_schemas_tables_columns_df conn None None),
        outcome (get_valid_schemas_tables_columns_df conn None None))
  /\ (forall info tables views,
        pandas_cursor conn (catalog_query None None) = Fetched info ->
        show_cursor conn "show tables in database" = Fetched tables ->
        show_cursor conn "show views in database" = Fetched views ->
        outcome (get_valid_schemas_tables_columns_df conn ts (Some names))
        = Ok (merge_inner (map listing_row (tables ++ views)) info)).
Proof.
  intros Hts Hnames.
  assert (catalog_query ts (Some names) = catalog_query None None) as Hq.
  { unfold catalog_query, where_clause. by rewrite Hts. }
  assert (get_valid_schemas_tables_columns_df conn ts (Some names)
     = (Logged WARNING
          "Provided table_name without table_schema, cannot filter to fetch the specific table"
        :: trace (get_valid_schemas_tables_columns_df conn None None),
        outcome (get_valid_schemas_tables_columns_df conn None None))) as Hsame.
  { unfold get_valid_schemas_tables_columns_df. rewrite Hq, Hts.
    destruct names as [|n names]; [done|]. simpl.
    by destruct (bind (plain_cursor _ _ _) _). }
  split; [done|]. split; [done|].
  intros info tables views Hi Ht Hv. rewrite Hsame. simpl.
  unfold get_valid_schemas_tables_columns_df, _fetch_valid_tables_and_views, _get_df.
  simpl. rewrite (plain_cursor_fetched _ _ _ _ Hi), !(plain_cursor_fetched _ _ _ _ Ht),
    !(plain_cursor_fetched _ _ _ _ Hv). simpl. by rewrite map_app.
Qed.

Lemma table_names_without_schema_are_ignored_witness :
  (truthy_opt (Some "") = false /\ ["orders"; "customers_v"] <> [])
  /\ catalog_query (Some "") (Some ["orders"; "customers_v"]) = catalog_query None None
  /\ statements (trace (get_valid_schemas_tables_columns_df Examples.catalog_conn (Some "")
                          (Some ["orders"; "customers_v"])))
     = [catalog_query None None; "show tables in database"; "show views in database"]
  /\ outcome (get_valid_schemas_tables_columns_df Examples.catalog_conn (Some "")
                (Some ["orders"; "customers_v"]))
     = Ok Examples.merged_rows.
Proof.
  assert (truthy_opt (Some "") = false) as H1 by reflexivity.
  assert (["orders"; "customers_v"] <> []) as H2 by discriminate.
  destruct (table_names_without_schema_are_ignored Examples.catalog_conn (Some "")
              ["orders"; "customers_v"] H1 H2) as (Hq & Hsame & _).
  split; [by split|]. split; [exact Hq|].
  rewrite Hsame. split; reflexivity.
Defined.

(** * The connection manager *)

Lemma required_missing v msg :
  truthy_opt v = false -> required v msg = ([], Raise (ValueError msg)).
Proof. destruct v as [s|]; simpl; [|done]. by intros ->. Qed.

Lemma required_present v msg :
  truthy_opt v = true -> exists s, v = Some s /\ required v msg = ([], Ok s).
Proof. destruct v as [s|]; simpl; [|done]. intros ->. by exists s. Qed.

Lemma truthy_opt_cases v : {truthy_opt v = true} + {truthy_opt v = false}.
Proof. destruct (truthy_opt v); auto. Qed.

(** When [_open_connection] raises, [conn] is still [None] in [connect]:
    the [finally] clause closes nothing and the exception goes on. *)
Lemma connect_when_open_raises {A} env drv self db sch (body : SnowflakeConnection -> M A) t e :
  _open_connection env drv self db sch = (t, Raise e) ->
  connect env drv self db sch body = (t, Raise e).
Proof. unfold connect. intros ->. simpl. by rewrite app_nil_r. Qed.

(** When [_open_connection] returns, the session is closed after the body,
    however the body ends. *)
Lemma connect_when_open_returns {A} env drv self db sch (body : SnowflakeConnection -> M A) t c :
  _open_connection env drv self db sch = (t, Ok c) ->
  connect env drv self db sch body
  = (t ++ trace (body c) ++ [SessionClosed], outcome (body c)).
Proof.
  unfold connect. intros ->. simpl. destruct (body c) as [t' r]. simpl.
  by rewrite app_assoc.
Qed.

Ltac resolve_credential H :=
  let s := fresh "s" in
  match type of H with
  | truthy_opt ?v = true =>
      match goal with
      | |- context [required v ?msg] =>
          destruct (required_present v msg H) as (s & _ & ->)
      end
  end.

(** C9: when a mandatory credential is unset or empty, [connect] raises the
    configuration error of a missing credential (the first one in the order
    user, password, role, warehouse; the one concerned when it is the only
    one missing), with a message that names its variable, and nothing has
    happened before: no session is opened.  With the four credentials set,
    the login of the driver is reached: if it refuses, its exception is the
    outcome and no session was opened; if it accepts, a session is
    opened. *)
Theorem missing_credential_is_reported {A} env drv self db sch
    (body : SnowflakeConnection -> M A) :
  (forall c, truthy_opt (credential env c) = false ->
     exists c' msg,
       truthy_opt (credential env c') = false
       /\ connect env drv self db sch body = ([], Raise (ValueError msg))
       /\ mentions msg (variable c') = true
       /\ ((forall c'', c'' <> c -> truthy_opt (credential env c'') = true) -> c' = c))
  /\ ((forall c, truthy_opt (credential env c) = true) ->
      exists user password role wh,
        credential env User = Some user /\ credential env Password = Some password
        /\ credential env Role = Some role /\ credential env Warehouse = Some wh
        /\ (forall e, drv user password (account_name self) role wh (SNOWFLAKE_HOST env)
                      = Raise e ->
              outcome (connect env drv self db sch body) = Raise e
              /\ SessionOpened ∉ trace (connect env drv self db sch body))
        /\ (forall c, drv user password (account_name self) role wh (SNOWFLAKE_HOST env)
                      = Ok c ->
              SessionOpened ∈ trace (connect env drv self db sch body))).
Proof.
  split.
  - intros c Hc.
    assert (forall c', truthy_opt (credential env c') = false ->
              (forall c'', c'' <> c -> truthy_opt (credential env c'') = true) -> c' = c)
      as Honly.
    { intros c' Hc' Hothers. destruct (decide (c' = c)) as [|Hne]; [done|].
      rewrite (Hothers c' Hne) in Hc'. done. }
    destruct (truthy_opt_cases (credential env User)) as [Hu|Hu]; last first.
    { exists User. eexists. split; [done|]. split; [|split; [|by apply Honly]].
      - apply connect_when_open_raises. unfold _open_connection, _get_user.
        simpl in Hu. by rewrite (required_missing _ _ Hu).
      - reflexivity. }
    destruct (truthy_opt_cases (credential env Password)) as [Hp|Hp]; last first.
    { exists Password. eexists. split; [done|]. split; [|split; [|by apply Honly]].
      - apply connect_when_open_raises. unfold _open_connection, _get_user, _get_password.
        simpl in Hu, Hp. resolve_credential Hu.
        by rewrite (required_missing _ _ Hp).
      - reflexivity. }
    destruct (truthy_opt_cases (credential env Role)) as [Hr|Hr]; last first.
    { exists Role. eexists. split; [done|]. split; [|split; [|by apply Honly]].
      - apply connect_when_open_raises.
        unfold _open_connection, _get_user, _get_password, _get_role.
        simpl in Hu, Hp, Hr. resolve_credential Hu. resolve_credential Hp.
        by rewrite (required_missing _ _ Hr).
      - reflexivity. }
    destruct (truthy_opt_cases (credential env Warehouse)) as [Hw|Hw]; last first.
    { exists Warehouse. eexists. split; [done|]. split; [|split; [|by apply Honly]].
      - apply connect_when_open_raises.
        unfold _open_connection, _get_user, _get_password, _get_role, _get_warehouse.
        simpl in Hu, Hp, Hr, Hw.
        resolve_credential Hu. resolve_credential Hp. resolve_credential Hr.
        by rewrite (required_missing _ _ Hw).
      - reflexivity. }
    destruct c; simpl in *; congruence.
  - intros Hall.
    pose proof (Hall User) as Hu. pose proof (Hall Password) as Hp.
    pose proof (Hall Role) as Hr. pose proof (Hall Warehouse) as Hw.
    simpl in Hu, Hp, Hr, Hw.
    destruct (required_present _ "You need to set an env var for the snowflake user. export SNOWFLAKE_USER=<your-snowflake-user>" Hu) as (u & Eu & Hu').
    destruct (required_present _ "You need to set an env var for the snowflake password. export SNOWFLAKE_PASSWORD=<your-snowflake-password>" Hp) as (p & Ep & Hp').
    destruct (required_present _ "You need to set an env var for the snowflake role. export SNOWFLAKE_ROLE=<your-snowflake-role>" Hr) as (r & Er & Hr').
    destruct (required_present _ "You need to set an env var for the snowflake warehouse. export SNOWFLAKE_WAREHOUSE=<your-snowflake-warehouse-name>" Hw) as (w & Ew & Hw').
    exists u, p, r, w. simpl. do 4 (split; [done|]).
    split.
    + intros e Hdrv.
      assert (exists t, _open_connection env drv self db sch = (t, Raise e)
                        /\ SessionOpened ∉ t) as (t & Ho & Hn).
      { unfold _open_connection, _get_user, _get_password, _get_role, _get_warehouse,
          _get_host, snowflake_connection.
        rewrite Hu', Hp', Hr', Hw'. simpl.
        destruct (truthy_opt (SNOWFLAKE_HOST env)); simpl; rewrite Hdrv; simpl;
          eexists; (split; [done|]).
        - by intros ?%elem_of_nil.
        - intros [?|?%elem_of_nil]%elem_of_cons; done. }
      rewrite (connect_when_open_raises _ _ _ _ _ _ _ _ Ho). done.
    + intros c Hdrv. unfold connect, try_finally.
      destruct (bind _ _) as [t0 r0] eqn:Hb. simpl. apply elem_of_app. left.
      change t0 with (trace (t0, r0)). rewrite <- Hb.
      apply elem_of_trace_bind_l. unfold _open_connection.
      eapply elem_of_trace_bind_r; [unfold _get_user; by rewrite Hu'|].
      eapply elem_of_trace_bind_r; [unfold _get_password; by rewrite Hp'|].
      eapply elem_of_trace_bind_r; [unfold _get_role; by rewrite Hr'|].
      eapply elem_of_trace_bind_r; [unfold _get_warehouse; by rewrite Hw'|].
      eapply elem_of_trace_bind_r.
      { unfold _get_host. by destruct (truthy_opt (SNOWFLAKE_HOST env)). }
      apply elem_of_trace_bind_l. unfold snowflake_connection. rewrite Hdrv.
      simpl. by left.
Qed.

Lemma missing_credential_is_reported_witness :
  truthy_opt (credential Examples.env_without_password Password) = false
  /\ (exists msg,
        connect Examples.env_without_password Examples.accepting_driver Examples.connector
          "db" None (fun _ => ret tt)
        = ([], Raise (ValueError msg))
        /\ mentions msg "SNOWFLAKE_PASSWORD" = true)
  /\ SessionOpened ∈ trace (connect Examples.full_env Examples.accepting_driver
                              Examples.connector "db" None (fun _ => ret tt)).
Proof.
  assert (truthy_opt (credential Examples.env_without_password Password) = false) as H
    by reflexivity.
  split; [exact H|]. split.
  - destruct (missing_credential_is_reported Examples.env_without_password
                Examples.accepting_driver Examples.connector "db" None (fun _ => ret tt))
      as (Hmissing & _).
    destruct (Hmissing Password H) as (c' & msg & _ & Hconnect & Hmsg & Honly).
    assert (c' = Password) as ->.
    { apply Honly. intros c'' Hne. destruct c''; try reflexivity. by destruct Hne. }
    exists msg. by split.
  - destruct (missing_credential_is_reported Examples.full_env
                Examples.accepting_driver Examples.connector "db" None (fun _ => ret tt))
      as (_ & Hpresent).
    destruct Hpresent as (u & p & r & w & Eu & Ep & Er & Ew & _ & Hopen).
    { intros c. by destruct c. }
    injection Eu as <-. injection Ep as <-. injection Er as <-. injection Ew as <-.
    exact (Hopen Examples.session eq_refl).
Defined.

(** C4: the session that [snowflake_connection] opened stays open when
    [USE DATABASE] fails: [connect] raises with one session opened and none
    closed. *)
Theorem session_left_open_when_use_database_fails :
  connect Examples.full_env Examples.accepting_driver Examples.connector
    "missing_db" None (fun _ => ret tt)
  = ([ Logged INFO
         "No host set. Attempting to connect without. To set export SNOWFLAKE_HOST=<snowflake-host-name>";
       SessionOpened;
       Executed "USE DATABASE missing_db" ],
     Raise (ValueError
              "Could not connect to database missing_db. Does the database exist in acct?"))
  /\ open_sessions
       (trace (connect Examples.full_env Examples.accepting_driver Examples.connector
                 "missing_db" None (fun _ => ret tt))) = 1
  /\ SessionClosed ∉ trace (connect Examples.full_env Examples.accepting_driver
                              Examples.connector "missing_db" None (fun _ => ret tt)).
Proof.
  assert (connect Examples.full_env Examples.accepting_driver Examples.connector
            "missing_db" None (fun _ => ret tt)
          = ([ Logged INFO
                 "No host set. Attempting to connect without. To set export SNOWFLAKE_HOST=<snowflake-host-name>";
               SessionOpened;
               Executed "USE DATABASE missing_db" ],
             Raise (ValueError
                      "Could not connect to database missing_db. Does the database exist in acct?")))
    as H by reflexivity.
  split; [exact H|]. rewrite H. split; [reflexivity|].
  simpl. intros Hin. repeat (apply elem_of_cons in Hin as [Hin|Hin]; [discriminate|]).
  by apply elem_of_nil in Hin.
Qed.

(** On the other exits the session is closed: when the database exists,
    [connect] ends with no session left open, whether the body returns or
    raises. *)
Lemma session_closed_after_body :
  open_sessions (trace (connect Examples.full_env Examples.accepting_driver
                          Examples.connector "db" (Some "sc") (fun _ => ret tt))) = 0
  /\ open_sessions (trace (connect Examples.full_env Examples.accepting_driver
                             Examples.connector "db" (Some "sc")
                             (fun _ => raise (A:=unit) (ValueError "stop")))) = 0.
Proof. split; reflexivity. Qed.

(** * Further properties of the code *)

Lemma bind_ok_eq {A B} (m : M A) (f : A -> M B) t a :
  m = (t, Ok a) -> bind m f = (t ++ trace (f a), outcome (f a)).
Proof. intros ->. simpl. by destruct (f a). Qed.

Lemma bind_raise_eq {A B} (m : M A) (f : A -> M B) t e :
  m = (t, Raise e) -> bind m f = (t, Raise e).
Proof. by intros ->. Qed.

Lemma trace_bind {A B} (m : M A) (f : A -> M B) :
  trace (bind m f)
  = trace m ++ match outcome m with Ok a => trace (f a) | Raise _ => [] end.
Proof.
  destruct m as [t [a|e]]; simpl; [|by rewrite app_nil_r]. by destruct (f a).
Qed.

Lemma read_key_trace k r : trace (read_key k r) = [].
Proof.
  unfold read_key, getitem. destruct r as [items|other]; [|done].
  by destruct (dict_get items k).
Qed.

Lemma mapM_read_key_trace k rows : trace (mapM (read_key k) rows) = [].
Proof.
  induction rows as [|r rows IH]; [done|]. simpl.
  rewrite trace_bind, read_key_trace. simpl.
  destruct (outcome (read_key k r)); [|done].
  rewrite trace_bind, IH. simpl. by destruct (outcome (mapM (read_key k) rows)).
Qed.

Lemma mapM_read_key_ok k rows vals :
  Forall2 (has_value k) rows vals ->
  mapM (read_key k) rows = ([], Ok (map str vals)).
Proof.
  induction 1 as [|r v rows vals Hr _ IH]; [done|]. simpl.
  destruct r as [items|other]; [|done]. simpl in Hr.
  unfold read_key at 1, getitem. rewrite Hr. simpl. by rewrite IH.
Qed.

Lemma mapM_read_key_lacks k rows :
  Exists (lacks k) rows ->
  exists e, mapM (read_key k) rows = ([], Raise e)
            /\ (e = KeyError k
                \/ e = TypeError "tuple indices must be integers or slices, not str").
Proof.
  induction rows as [|r rows IH]; intros Hex; [by apply Exists_nil in Hex|].
  simpl. destruct r as [items|other].
  - unfold read_key at 1, getitem. destruct (dict_get items k) as [v|] eqn:Hk.
    + apply Exists_cons in Hex as [Hex|Hex]; [simpl in Hex; congruence|].
      destruct (IH Hex) as (e & -> & He). simpl. by exists e.
    + simpl. eexists. split; [done|]. by left.
  - simpl. eexists. split; [done|]. by right.
Qed.

Lemma sample_body_dict_first conn s t c ndv k v0 items0 rest :
  dict_cursor conn (sample_query c s t ndv) = Fetched (RDict ((k, v0) :: items0) :: rest) ->
  sample_body conn s t c ndv
  = (Executed (sample_query c s t ndv)
       :: trace (mapM (read_key k) (RDict ((k, v0) :: items0) :: rest)),
     match outcome (mapM (read_key k) (RDict ((k, v0) :: items0) :: rest)) with
     | Ok column_values => Ok (Some column_values)
     | Raise e => Raise e
     end).
Proof.
  intros Hq.
  assert (fetch_dict_rows conn "Cursor is unexpectedly None"
            "cursor_execute should not be none " (sample_query c s t ndv)
          = ([Executed (sample_query c s t ndv)], Ok (RDict ((k, v0) :: items0) :: rest)))
    as Hfetch.
  { unfold fetch_dict_rows. by rewrite Hq. }
  unfold sample_body. rewrite (bind_ok_eq _ _ _ _ Hfetch).
  cbv beta iota.
  rewrite (bind_ok_eq (ret k) _ [] k eq_refl).
  change (fun r : Row => bind (getitem r k) (fun v => ret (str v))) with (read_key k).
  destruct (mapM (read_key k) (RDict ((k, v0) :: items0) :: rest)) as [tr [vs|e]];
    cbn [bind ret trace outcome fst snd app]; by rewrite ?app_nil_r.
Qed.

(** X1: when the sample size is positive and every fetched row is a
    name-keyed record that has the first name of the first row, the sampler
    issues its one query, logs nothing and returns the column whose values
    are the strings of the values under that name, in row order. *)
Theorem sample_values_are_first_key_strings conn s t c cm idx dt ndv k v0 items0 rest vals :
  0 < ndv ->
  dict_cursor conn (sample_query c s t ndv) = Fetched (RDict ((k, v0) :: items0) :: rest) ->
  Forall2 (has_value k) (RDict ((k, v0) :: items0) :: rest) vals ->
  _get_column_representation conn s t c cm idx dt ndv
  = ([Executed (sample_query c s t ndv)],
     Ok (mkColumn idx c cm dt (Some (map str vals)))).
Proof.
  intros Hndv Hq Hvals. unfold _get_column_representation.
  case_decide; [|lia].
  rewrite (sample_body_dict_first _ _ _ _ _ _ _ _ _ Hq).
  by rewrite (mapM_read_key_ok _ _ _ Hvals).
Qed.

Lemma sample_values_are_first_key_strings_witness :
  _get_column_representation Examples.sampling_conn "S" "T" "C" None 2 "NUMBER" 2
  = ([Executed (sample_query "C" "S" "T" 2)],
     Ok (mkColumn 2 "C" None "NUMBER" (Some ["1"; "2"]))).
Proof.
  assert (0 < 2) as H by lia.
  assert (Forall2 (has_value "C") [RDict [("C", VInt 1)]; RDict [("C", VInt 2)]]
            [VInt 1; VInt 2]) as Hv.
  { repeat constructor. }
  exact (sample_values_are_first_key_strings Examples.sampling_conn "S" "T" "C" None 2
           "NUMBER" 2 "C" (VInt 1) [] [RDict [("C", VInt 2)]] [VInt 1; VInt 2] H eq_refl
           Hv).
Defined.

(** X2: a fetched sample is all or nothing.  When the first row is not a
    name-keyed record, or is a record without any name, or a later row has
    no value under the first name of the first row, the column is returned
    without sample values and one error line, which starts with the words of
    the source, is logged after the query.  The text that follows these
    words (the rendering of the rows or of the exception) is left open. *)
Theorem unusable_row_discards_the_sample conn s t c cm idx dt ndv rows :
  0 < ndv ->
  dict_cursor conn (sample_query c s t ndv) = Fetched rows ->
  (forall rendering rest, rows = ROther rendering :: rest ->
     exists passed,
       _get_column_representation conn s t c cm idx dt ndv
       = ([Executed (sample_query c s t ndv);
           Logged ERROR
             ("unable to get values: Expected the first item of res to be a dict. Instead passed "
              +:+ passed)],
          Ok (mkColumn idx c cm dt None)))
  /\ (forall rest, rows = RDict [] :: rest ->
        _get_column_representation conn s t c cm idx dt ndv
        = ([Executed (sample_query c s t ndv);
            Logged ERROR "unable to get values: list index out of range"],
           Ok (mkColumn idx c cm dt None)))
  /\ (forall k v0 items0 rest, rows = RDict ((k, v0) :: items0) :: rest ->
        Exists (lacks k) rest ->
        exists detail,
          _get_column_representation conn s t c cm idx dt ndv
          = ([Executed (sample_query c s t ndv);
              Logged ERROR ("unable to get values: " +:+ detail)],
             Ok (mkColumn idx c cm dt None))).
Proof.
  intros Hndv Hq. split; [|split].
  - intros rendering rest ->. exists (repr_rows (ROther rendering :: rest)).
    unfold _get_column_representation.
    case_decide; [|lia]. unfold sample_body, fetch_dict_rows. by rewrite Hq.
  - intros rest ->. unfold _get_column_representation.
    case_decide; [|lia]. unfold sample_body, fetch_dict_rows. by rewrite Hq.
  - intros k v0 items0 rest -> Hex.
    destruct (mapM_read_key_lacks k (RDict ((k, v0) :: items0) :: rest)) as (e & He & Hkind).
    { by right. }
    exists (exc_str e). unfold _get_column_representation.
    case_decide; [|lia].
    rewrite (sample_body_dict_first _ _ _ _ _ _ _ _ _ Hq), He. done.
Qed.

Lemma unusable_row_discards_the_sample_witness :
  exists detail,
    _get_column_representation Scenarios.ragged_conn "S" "T" "A" None 0 "TEXT" 5
    = ([Executed (sample_query "A" "S" "T" 5);
        Logged ERROR ("unable to get values: " +:+ detail)],
       Ok (mkColumn 0 "A" None "TEXT" None)).
Proof.
  assert (0 < 5) as H by lia.
  destruct (unusable_row_discards_the_sample Scenarios.ragged_conn "S" "T" "A" None 0
              "TEXT" 5 _ H eq_refl) as (_ & _ & Hlater).
  assert (Exists (lacks "A") [RDict [("B", VStr "y")]]) as Hlacks.
  { apply Exists_cons_hd. reflexivity. }
  exact (Hlater "A" (VStr "x") [] [RDict [("B", VStr "y")]] eq_refl Hlacks).
Defined.

Lemma _get_column_representation_statements conn s t c cm idx dt ndv :
  statements (trace (_get_column_representation conn s t c cm idx dt ndv))
  = if decide (0 < ndv) then
      match dict_cursor conn (sample_query c s t ndv) with
      | CursorNone => []
      | _ => [sample_query c s t ndv]
      end
    else [].
Proof.
  unfold _get_column_representation. case_decide; [|done].
  destruct (dict_cursor conn (sample_query c s t ndv)) as [|e| |rows] eqn:Hq.
  - unfold sample_body, fetch_dict_rows. by rewrite Hq.
  - unfold sample_body, fetch_dict_rows. by rewrite Hq.
  - unfold sample_body, fetch_dict_rows. by rewrite Hq.
  - destruct rows as [|[[|[k v0] items0]|other] rest].
    + unfold sample_body, fetch_dict_rows. by rewrite Hq.
    + unfold sample_body, fetch_dict_rows. by rewrite Hq.
    + rewrite (sample_body_dict_first _ _ _ _ _ _ _ _ _ Hq), mapM_read_key_trace.
      by destruct (outcome (mapM _ _)).
    + unfold sample_body, fetch_dict_rows. by rewrite Hq.
Qed.

(** X3: the sampler hands at most one statement to the connection, its own
    sampling query: none when the sample size is not positive or no cursor
    is obtained, exactly that query otherwise, whatever the query
    returns. *)
Theorem sampler_issues_at_most_its_query conn s t c cm idx dt ndv :
  statements (trace (_get_column_representation conn s t c cm idx dt ndv))
  = if decide (0 < ndv) then
      match dict_cursor conn (sample_query c s t ndv) with
      | CursorNone => []
      | _ => [sample_query c s t ndv]
      end
    else [].
Proof. apply _get_column_representation_statements. Qed.

Lemma flat_map_singleton {A B} (g : A -> B) (l : list A) :
  flat_map (fun x => [g x]) l = map g l.
Proof. induction l as [|x l IH]; [done|]. simpl. by rewrite IH. Qed.

Lemma statements_app t1 t2 : statements (t1 ++ t2) = statements t1 ++ statements t2.
Proof. unfold statements. apply omap_app. Qed.

Lemma statements_flat_map {A} (g : A -> list Event) l :
  statements (flat_map g l) = flat_map (fun x => statements (g x)) l.
Proof.
  induction l as [|x l IH]; [done|]. simpl. by rewrite statements_app, IH.
Qed.

Lemma mapM_trace_ok {A B} (f : A -> M B) (l : list A) :
  Forall (fun x => exists y, outcome (f x) = Ok y) l ->
  trace (mapM f l) = flat_map (fun x => trace (f x)) l
  /\ exists ys, outcome (mapM f l) = Ok ys.
Proof.
  induction 1 as [|x l [y Hy] _ [IHt [ys IHo]]]; [by eauto|].
  simpl. rewrite trace_bind, Hy, trace_bind, IHt, IHo. simpl. rewrite app_nil_r.
  split; [done|]. exists (y :: ys).
  rewrite (outcome_bind_ok _ _ _ Hy), (outcome_bind_ok _ _ _ IHo). done.
Qed.

Lemma as_completed_tasks conn s t ndv (df : list MergedRow) d completion :
  Forall (fun i => i < length df)%nat completion ->
  as_completed
    (imap (fun col_index column_row =>
             (_get_col conn s t ndv col_index column_row, col_index)) df)
    completion
  = map (fun i => (_get_col conn s t ndv i (nth i df d), i)) completion.
Proof.
  induction 1 as [|i completion Hi _ IH]; [done|].
  unfold as_completed in *. simpl.
  destruct (lookup_lt_is_Some_2 df i Hi) as [row Hrow].
  rewrite list_lookup_imap, Hrow. simpl.
  rewrite (nth_lookup_Some _ _ d _ Hrow). f_equal. exact IH.
Qed.

Lemma get_table_representation_trace conn s t ti ndv df row0 mw completion :
  head df = Some row0 -> 1 <= mw ->
  Forall (fun i => i < length df)%nat completion ->
  trace (get_table_representation conn s t ti ndv df mw completion)
  = flat_map (fun i => trace (_get_col conn s t ndv i (nth i df row0))) completion.
Proof.
  intros Hhead Hmw Hrange.
  destruct df as [|r df'] eqn:E; [done|]. injection Hhead as ->. rewrite <- E in *.
  unfold get_table_representation. rewrite E at 1.
  rewrite trace_bind. cbn [trace outcome ret fst snd app].
  unfold ThreadPoolExecutor. case_decide; [lia|].
  rewrite trace_bind. cbn [trace outcome ret fst snd app].
  rewrite trace_bind.
  rewrite (as_completed_tasks _ _ _ _ _ row0 _ Hrange).
  set (F := fun fc : M Column * nat => bind fc.1 (fun column => ret (fc.2, column))).
  destruct (mapM_trace_ok F
              (map (fun i => (_get_col conn s t ndv i (nth i df row0), i)) completion))
    as [-> [ys ->]].
  { apply Forall_fmap, Forall_forall. intros i _. unfold F. simpl.
    eexists. erewrite outcome_bind_ok by apply _get_col_outcome. done. }
  cbn [trace ret fst]. rewrite app_nil_r.
  clear. induction completion as [|i completion IH]; [done|].
  simpl. rewrite IH. f_equal. unfold F. simpl.
  rewrite trace_bind, _get_col_outcome. simpl. by rewrite app_nil_r.
Qed.

(** X4: with a positive sample size, table assembly issues one sampling
    query per column row and no other statement, whatever the order in which
    the tasks complete. *)
Theorem one_sampling_query_per_column conn s t ti ndv df mw completion :
  0 < ndv -> (forall q, dict_cursor conn q <> CursorNone) ->
  df <> [] -> 1 <= mw -> completion ≡ₚ seq 0 (length df) ->
  statements (trace (get_table_representation conn s t ti ndv df mw completion))
  ≡ₚ map (fun row => sample_query (COLUMN_NAME row) s t ndv) df.
Proof.
  intros Hndv Hcursor Hdf Hmw Hperm.
  destruct df as [|row0 df'] eqn:E; [done|]. rewrite <- E in *.
  rewrite (get_table_representation_trace _ _ _ _ _ _ row0); [|by rewrite E|done|].
  2:{ apply Forall_forall. intros i Hi. rewrite Hperm in Hi.
      apply list_elem_of_In, in_seq in Hi. lia. }
  rewrite statements_flat_map.
  assert (forall i, statements (trace (_get_col conn s t ndv i (nth i df row0)))
                    = [sample_query (COLUMN_NAME (nth i df row0)) s t ndv]) as Hone.
  { intros i. unfold _get_col. rewrite _get_column_representation_statements.
    case_decide; [|lia].
    specialize (Hcursor (sample_query (COLUMN_NAME (nth i df row0)) s t ndv)).
    by destruct (dict_cursor conn _). }
  rewrite (flat_map_ext _ (fun i => [sample_query (COLUMN_NAME (nth i df row0)) s t ndv]))
    by (intros; apply Hone).
  rewrite flat_map_singleton, Hperm.
  rewrite <- (imap_as_map_seq (fun _ row => sample_query (COLUMN_NAME row) s t ndv)).
  by rewrite (imap_const (fun row => sample_query (COLUMN_NAME row) s t ndv)).
Qed.

Lemma one_sampling_query_per_column_witness :
  statements (trace (get_table_representation Examples.sampling_conn "S" "T" 7 2
                       Examples.columns_df 8 [2; 0; 1]%nat))
  ≡ₚ [sample_query "A" "S" "T" 2; sample_query "B" "S" "T" 2; sample_query "C" "S" "T" 2].
Proof.
  assert (0 < 2) as H1 by lia.
  assert (forall q, dict_cursor Examples.sampling_conn q <> CursorNone) as H2.
  { intros q. simpl. repeat case_decide; discriminate. }
  assert (Examples.columns_df <> []) as H3 by discriminate.
  assert (1 <= 8) as H4 by lia.
  assert ([2; 0; 1]%nat ≡ₚ seq 0 (length Examples.columns_df)) as H5.
  { simpl. eapply perm_trans; [apply perm_swap|]. apply perm_skip, perm_swap. }
  exact (one_sampling_query_per_column Examples.sampling_conn "S" "T" 7 2
           Examples.columns_df 8 [2; 0; 1]%nat H1 H2 H3 H4 H5).
Defined.

(** X5: with a sample size of zero or less, table assembly causes no event
    and returns the table of the columns of the rows, in row order, none
    with sample values. *)
Theorem sampling_off_for_the_whole_table conn s t ti ndv df row0 mw completion :
  ndv <= 0 -> head df = Some row0 -> 1 <= mw -> completion ≡ₚ seq 0 (length df) ->
  get_table_representation conn s t ti ndv df mw completion
  = ([], Ok {| id_ := ti; tbl_name := t; tbl_comment := TABLE_COMMENT row0;
               columns := imap (fun i row =>
                                  mkColumn (Z.of_nat i) (COLUMN_NAME row)
                                    (COLUMN_COMMENT row) (DATA_TYPE row) None) df |}).
Proof.
  intros Hndv Hhead Hmw Hperm.
  rewrite (M_eta (get_table_representation _ _ _ _ _ _ _ _)).
  rewrite (get_table_representation_outcome _ _ _ _ _ _ row0) by done.
  rewrite (get_table_representation_trace _ _ _ _ _ _ row0); [|done..|].
  2:{ apply Forall_forall. intros i Hi. rewrite Hperm in Hi.
      apply list_elem_of_In, in_seq in Hi. lia. }
  f_equal.
  - induction completion as [|i completion IH] in |- *; [done|].
    simpl. rewrite IH. unfold _get_col, _get_column_representation.
    case_decide; [lia|done].
  - do 2 f_equal. apply imap_ext. intros i row _. unfold column_of, sampled.
    case_decide; [lia|done].
Qed.

Lemma sampling_off_for_the_whole_table_witness :
  get_table_representation Examples.sampling_conn "S" "T" 7 0
    Examples.columns_df 8 [2; 0; 1]%nat
  = ([], Ok {| id_ := 7; tbl_name := "T"; tbl_comment := Some "a table";
               columns := [ mkColumn 0 "A" None "TEXT" None;
                            mkColumn 1 "B" (Some "refused") "TEXT" None;
                            mkColumn 2 "C" None "NUMBER" None ] |}).
Proof.
  assert (0 <= 0) as H1 by lia.
  assert (1 <= 8) as H2 by lia.
  assert ([2; 0; 1]%nat ≡ₚ seq 0 (length Examples.columns_df)) as H3.
  { simpl. eapply perm_trans; [apply perm_swap|]. apply perm_skip, perm_swap. }
  exact (sampling_off_for_the_whole_table Examples.sampling_conn "S" "T" 7 0
           Examples.columns_df _ 8 [2; 0; 1]%nat H1 eq_refl H2 H3).
Defined.

(** X6: table assembly raises [IndexError] on an empty row-set and
    [ValueError] on a pool without workers, in both cases before any
    statement is issued. *)
Theorem table_assembly_rejects_bad_input conn s t ti ndv df mw completion :
  (df = [] ->
   get_table_representation conn s t ti ndv df mw completion
   = ([], Raise (IndexError "single positional indexer is out-of-bounds")))
  /\ (df <> [] -> mw <= 0 ->
      get_table_representation conn s t ti ndv df mw completion
      = ([], Raise (ValueError "max_workers must be greater than 0"))).
Proof.
  split.
  - by intros ->.
  - intros Hdf Hmw. destruct df as [|row0 df']; [done|].
    unfold get_table_representation, ThreadPoolExecutor. simpl.
    case_decide; [done|lia].
Qed.

Lemma table_assembly_rejects_bad_input_witness :
  get_table_representation Examples.sampling_conn "S" "T" 7 2 [] 8 []
  = ([], Raise (IndexError "single positional indexer is out-of-bounds"))
  /\ get_table_representation Examples.sampling_conn "S" "T" 7 2 Examples.columns_df 0
       [0; 1; 2]%nat
     = ([], Raise (ValueError "max_workers must be greater than 0")).
Proof.
  split.
  - exact (proj1 (table_assembly_rejects_bad_input Examples.sampling_conn "S" "T" 7 2 [] 8 [])
             eq_refl).
  - assert (Examples.columns_df <> []) as H1 by discriminate.
    assert (0 <= 0) as H2 by lia.
    exact (proj2 (table_assembly_rejects_bad_input Examples.sampling_conn "S" "T" 7 2
                    Examples.columns_df 0 [0; 1; 2]%nat) H1 H2).
Defined.

Lemma same_object_keys l r : same_object l r = true <-> listing_key l = info_key r.
Proof.
  unfold same_object, listing_key, info_key. rewrite bool_decide_eq_true.
  split; [by intros [-> ->]|]. by intros [= -> ->].
Qed.

Lemma info_part_joined l r : same_object l r = true -> info_part (joined l r) = r.
Proof.
  intros [= H1 H2]%same_object_keys. destruct r. unfold info_part, joined. simpl in *.
  by rewrite H1, H2.
Qed.

Lemma NoDup_fmap_same {A B} (f : A -> B) (l : list A) x y :
  NoDup (map f l) -> x ∈ l -> y ∈ l -> f x = f y -> x = y.
Proof.
  induction l as [|z l IH]; simpl; intros Hnd Hx Hy Hf; [by apply elem_of_nil in Hx|].
  apply NoDup_cons in Hnd as [Hz Hnd].
  apply elem_of_cons in Hx as [->|Hx]; apply elem_of_cons in Hy as [->|Hy]; try done.
  - destruct Hz. rewrite Hf. by apply list_elem_of_fmap_2.
  - destruct Hz. rewrite <- Hf. by apply list_elem_of_fmap_2.
  - by apply IH.
Qed.

Lemma filter_either {A} (P Q : A -> Prop) `{!forall x, Decision (P x)}
    `{!forall x, Decision (Q x)} (l : list A) :
  (forall x, P x -> Q x -> False) ->
  filter (fun x => P x \/ Q x) l ≡ₚ filter P l ++ filter Q l.
Proof.
  intros Hdisj. induction l as [|x l IH]; [done|].
  rewrite !filter_cons.
  destruct (decide (P x)) as [HP|HP]; destruct (decide (Q x)) as [HQ|HQ].
  - by destruct (Hdisj x).
  - rewrite decide_True by auto. simpl. by rewrite IH.
  - rewrite decide_True by auto. rewrite IH. apply Permutation_middle.
  - rewrite decide_False by tauto. done.
Qed.

Lemma info_parts_of_rows l (info : list InfoRow) :
  map (fun r => info_part (joined l r)) (rows_of l info) = rows_of l info.
Proof.
  unfold rows_of. induction info as [|r info IHi]; [done|].
  rewrite filter_cons. case_decide as Hs; [|exact IHi]. simpl.
  by rewrite (info_part_joined _ _ Hs), IHi.
Qed.

Lemma info_parts_of_merge (left : list ListingRow) (info : list InfoRow) :
  map info_part (merge_inner left info) = flat_map (fun l => rows_of l info) left.
Proof.
  unfold merge_inner. induction left as [|l left IH]; [done|].
  simpl. rewrite map_app, IH. f_equal. rewrite map_map. apply info_parts_of_rows.
Qed.

Lemma rows_of_listed (left : list ListingRow) (info : list InfoRow) :
  NoDup (map listing_key left) ->
  flat_map (fun l => rows_of l info) left
  ≡ₚ filter (fun r => info_key r ∈ map listing_key left) info.
Proof.
  induction left as [|l left IH]; intros Hnd.
  - simpl. induction info as [|r info IHi]; [done|].
    rewrite filter_cons, decide_False; [done|]. by intros ?%elem_of_nil.
  - change (map listing_key (l :: left)) with (listing_key l :: map listing_key left) in *.
    apply NoDup_cons in Hnd as [Hl Hnd].
    cbn [flat_map]. rewrite (IH Hnd).
    rewrite (list_filter_iff (fun r => info_key r ∈ listing_key l :: map listing_key left)
               (fun r => listing_key l = info_key r
                         \/ info_key r ∈ map listing_key left)).
    2:{ intros r. rewrite elem_of_cons.
        split; intros [H|H]; [left; by symmetry|by right|left; by symmetry|by right]. }
    rewrite filter_either.
    2:{ intros r Heq Hin. apply Hl. by rewrite Heq. }
    apply Permutation_app; [|done].
    unfold rows_of. erewrite list_filter_iff; [done|].
    intros r. apply same_object_keys.
Qed.

(** X7: the live listing is the tables followed by the views, by two
    statements in that order; when the listing of the tables raises, the
    views are not asked for; an exception of either statement is the
    outcome. *)
Theorem listing_is_tables_then_views conn :
  (forall tables views,
     show_cursor conn "show tables in database" = Fetched tables ->
     show_cursor conn "show views in database" = Fetched views ->
     _fetch_valid_tables_and_views conn
     = ([Executed "show tables in database"; Executed "show views in database"],
        Ok (map listing_row tables ++ map listing_row views)))
  /\ (forall e,
        show_cursor conn "show tables in database" = Raises e ->
        _fetch_valid_tables_and_views conn
        = ([Executed "show tables in database"], Raise e))
  /\ (forall tables e,
        show_cursor conn "show tables in database" = Fetched tables ->
        show_cursor conn "show views in database" = Raises e ->
        _fetch_valid_tables_and_views conn
        = ([Executed "show tables in database"; Executed "show views in database"],
           Raise e)).
Proof.
  unfold _fetch_valid_tables_and_views, _get_df, plain_cursor. split; [|split].
  - by intros tables views -> ->.
  - by intros e ->.
  - by intros tables e -> ->.
Qed.

Lemma listing_is_tables_then_views_witness :
  _fetch_valid_tables_and_views Examples.catalog_conn
  = ([Executed "show tables in database"; Executed "show views in database"],
     Ok [ mkListingRow "ORDERS" "SALES" (Some "orders");
          mkListingRow "CUSTOMERS_V" "SALES" None ]).
Proof.
  exact (proj1 (listing_is_tables_then_views Examples.catalog_conn) _ _ eq_refl eq_refl).
Defined.

(** X8: when the information-schema query raises, that exception is the
    outcome and the query is the only statement issued: the live listing is
    not consulted. *)
Theorem catalog_query_failure_stops_the_call conn ts tn e :
  pandas_cursor conn (catalog_query ts tn) = Raises e ->
  outcome (get_valid_schemas_tables_columns_df conn ts tn) = Raise e
  /\ statements (trace (get_valid_schemas_tables_columns_df conn ts tn))
     = [catalog_query ts tn].
Proof.
  intros Hq. unfold get_valid_schemas_tables_columns_df, plain_cursor. rewrite Hq.
  by destruct (truthy_list tn && negb (truthy_opt ts)).
Qed.

Lemma catalog_query_failure_stops_the_call_witness :
  outcome (get_valid_schemas_tables_columns_df Scenarios.no_catalog_conn (Some "SALES") None)
  = Raise (ProgrammingError "Insufficient privileges")
  /\ statements (trace (get_valid_schemas_tables_columns_df Scenarios.no_catalog_conn
                          (Some "SALES") None))
     = [catalog_query (Some "SALES") None].
Proof.
  exact (catalog_query_failure_stops_the_call Scenarios.no_catalog_conn (Some "SALES") None
           (ProgrammingError "Insufficient privileges") eq_refl).
Defined.

(** X9: every information-schema row of an object that is in the live
    listing is in the result, joined with the listing row of that object
    (name, schema and comment from the listing; column name, datatype and
    column comment from the information schema). *)
Theorem listed_objects_keep_all_their_columns conn ts tn df tables views info l r :
  outcome (get_valid_schemas_tables_columns_df conn ts tn) = Ok df ->
  show_cursor conn "show tables in database" = Fetched tables ->
  show_cursor conn "show views in database" = Fetched views ->
  pandas_cursor conn (catalog_query ts tn) = Fetched info ->
  l ∈ tables ++ views -> r ∈ info ->
  schema_name l = i_TABLE_SCHEMA r -> name l = i_TABLE_NAME r ->
  {| TABLE_NAME := name l; TABLE_SCHEMA := schema_name l; TABLE_COMMENT := comment l;
     COLUMN_NAME := i_COLUMN_NAME r; DATA_TYPE := i_DATA_TYPE r;
     COLUMN_COMMENT := i_COLUMN_COMMENT r |} ∈ df.
Proof.
  intros Hok Ht Hv Hi Hl Hr Hs Hn.
  apply get_valid_schemas_tables_columns_df_ok in Hok
    as (info' & tables' & views' & Hi' & Ht' & Hv' & ->).
  rewrite Hi in Hi'. rewrite Ht in Ht'. rewrite Hv in Hv'.
  injection Hi' as <-. injection Ht' as <-. injection Hv' as <-.
  apply elem_of_merge_inner. exists (listing_row l), r.
  split; [by apply list_elem_of_fmap_2|]. split; [done|]. split; [|done].
  apply same_object_keys. unfold listing_key, info_key. simpl. by rewrite Hs, Hn.
Qed.

Lemma listed_objects_keep_all_their_columns_witness :
  mkMergedRow "CUSTOMERS_V" "SALES" None "NAME" "TEXT" None ∈ Examples.merged_rows.
Proof.
  assert (mkShowRow "CUSTOMERS_V" "SALES" None
          ∈ [mkShowRow "ORDERS" "SALES" (Some "orders")]
            ++ [mkShowRow "CUSTOMERS_V" "SALES" None]) as Hl.
  { right. left. }
  assert (mkInfoRow "SALES" "CUSTOMERS_V" "NAME" "TEXT" None ∈ Examples.info_rows) as Hr.
  { right. left. }
  exact (listed_objects_keep_all_their_columns Examples.catalog_conn None None
           Examples.merged_rows _ _ _ _ _ eq_refl eq_refl eq_refl eq_refl Hl Hr
           eq_refl eq_refl).
Defined.

(** X10: when no (schema, table) pair occurs twice in the live listing, the
    returned rows of one object all carry the same table comment. *)
Theorem one_table_comment_per_object conn ts tn df tables views row1 row2 :
  outcome (get_valid_schemas_tables_columns_df conn ts tn) = Ok df ->
  show_cursor conn "show tables in database" = Fetched tables ->
  show_cursor conn "show views in database" = Fetched views ->
  NoDup (map show_key (tables ++ views)) ->
  row1 ∈ df -> row2 ∈ df ->
  TABLE_SCHEMA row1 = TABLE_SCHEMA row2 -> TABLE_NAME row1 = TABLE_NAME row2 ->
  TABLE_COMMENT row1 = TABLE_COMMENT row2.
Proof.
  intros Hok Ht Hv Hnd H1 H2 Hs Hn.
  apply get_valid_schemas_tables_columns_df_ok in Hok
    as (info' & tables' & views' & Hi' & Ht' & Hv' & ->).
  rewrite Ht in Ht'. rewrite Hv in Hv'. injection Ht' as <-. injection Hv' as <-.
  apply elem_of_merge_inner in H1 as (l1 & r1 & Hl1 & _ & _ & ->).
  apply elem_of_merge_inner in H2 as (l2 & r2 & Hl2 & _ & _ & ->).
  apply list_elem_of_fmap in Hl1 as (s1 & -> & Hs1).
  apply list_elem_of_fmap in Hl2 as (s2 & -> & Hs2).
  simpl in *.
  assert (s1 = s2) as ->; [|done].
  apply (NoDup_fmap_same show_key (tables ++ views)); [done..|].
  unfold show_key. by rewrite Hs, Hn.
Qed.

Lemma one_table_comment_per_object_witness :
  TABLE_COMMENT (mkMergedRow "ORDERS" "SALES" (Some "orders") "ID" "NUMBER" None)
  = TABLE_COMMENT (mkMergedRow "ORDERS" "SALES" (Some "orders") "AMOUNT" "NUMBER"
                     (Some "in cents")).
Proof.
  assert (NoDup (map show_key ([mkShowRow "ORDERS" "SALES" (Some "orders")]
                               ++ [mkShowRow "CUSTOMERS_V" "SALES" None]))) as Hnd.
  { simpl. apply NoDup_cons. split; [|apply NoDup_singleton].
    intros Hin. apply list_elem_of_singleton in Hin. discriminate. }
  assert (mkMergedRow "ORDERS" "SALES" (Some "orders") "ID" "NUMBER" None
          ∈ Examples.merged_rows) as H1 by left.
  assert (mkMergedRow "ORDERS" "SALES" (Some "orders") "AMOUNT" "NUMBER" (Some "in cents")
          ∈ Examples.merged_rows) as H2 by (right; left).
  exact (one_table_comment_per_object Examples.catalog_conn None None Examples.merged_rows
           _ _ _ _ eq_refl eq_refl eq_refl Hnd H1 H2 eq_refl eq_refl).
Defined.

(** X11: when no (schema, table) pair occurs twice in the live listing, the
    result has, up to order, exactly the information-schema rows whose object
    is listed, each once. *)
Theorem result_is_the_listed_part_of_the_catalog conn ts tn df tables views info :
  outcome (get_valid_schemas_tables_columns_df conn ts tn) = Ok df ->
  show_cursor conn "show tables in database" = Fetched tables ->
  show_cursor conn "show views in database" = Fetched views ->
  pandas_cursor conn (catalog_query ts tn) = Fetched info ->
  NoDup (map show_key (tables ++ views)) ->
  map info_part df
  ≡ₚ filter (fun r => info_key r ∈ map show_key (tables ++ views)) info.
Proof.
  intros Hok Ht Hv Hi Hnd.
  apply get_valid_schemas_tables_columns_df_ok in Hok
    as (info' & tables' & views' & Hi' & Ht' & Hv' & ->).
  rewrite Hi in Hi'. rewrite Ht in Ht'. rewrite Hv in Hv'.
  injection Hi' as <-. injection Ht' as <-. injection Hv' as <-.
  rewrite info_parts_of_merge.
  assert (map listing_key (map listing_row (tables ++ views))
          = map show_key (tables ++ views)) as Hkeys by (by rewrite map_map).
  rewrite rows_of_listed by (by rewrite Hkeys).
  by rewrite Hkeys.
Qed.

Lemma result_is_the_listed_part_of_the_catalog_witness :
  map info_part Examples.merged_rows
  ≡ₚ filter (fun r => info_key r ∈ [("SALES", "ORDERS"); ("SALES", "CUSTOMERS_V")])
       Examples.info_rows.
Proof.
  assert (NoDup (map show_key ([mkShowRow "ORDERS" "SALES" (Some "orders")]
                               ++ [mkShowRow "CUSTOMERS_V" "SALES" None]))) as Hnd.
  { simpl. apply NoDup_cons. split; [|apply NoDup_singleton].
    intros Hin. apply list_elem_of_singleton in Hin. discriminate. }
  exact (result_is_the_listed_part_of_the_catalog Examples.catalog_conn None None
           Examples.merged_rows _ _ _ eq_refl eq_refl eq_refl eq_refl Hnd).
Defined.

(** X12: two lists of table names written in ASCII that agree after
    lowercasing give the same catalog query and the same call. *)
Theorem table_name_filter_ignores_case conn ts names names' :
  Forall ascii_name names -> Forall ascii_name names' ->
  map lower names = map lower names' ->
  catalog_query ts (Some names) = catalog_query ts (Some names')
  /\ get_valid_schemas_tables_columns_df conn ts (Some names)
     = get_valid_schemas_tables_columns_df conn ts (Some names').
Proof.
  intros _ _ Hlow.
  assert (truthy_list (Some names) = truthy_list (Some names')) as Htruthy.
  { destruct names, names'; done. }
  assert (catalog_query ts (Some names) = catalog_query ts (Some names')) as Hq.
  { unfold catalog_query, where_clause. rewrite Htruthy. simpl.
    rewrite <- (map_map lower (fun x => sq +:+ x +:+ sq) names).
    rewrite <- (map_map lower (fun x => sq +:+ x +:+ sq) names').
    by rewrite Hlow. }
  split; [done|].
  unfold get_valid_schemas_tables_columns_df. by rewrite Hq, Htruthy.
Qed.

Lemma table_name_filter_ignores_case_witness :
  (Forall ascii_name ["Orders"; "CUSTOMERS_V"]
   /\ Forall ascii_name ["ORDERS"; "customers_v"]
   /\ map lower ["Orders"; "CUSTOMERS_V"] = map lower ["ORDERS"; "customers_v"])
  /\ catalog_query (Some "SALES") (Some ["Orders"; "CUSTOMERS_V"])
     = catalog_query (Some "SALES") (Some ["ORDERS"; "customers_v"])
  /\ get_valid_schemas_tables_columns_df Examples.catalog_conn (Some "SALES")
       (Some ["Orders"; "CUSTOMERS_V"])
     = get_valid_schemas_tables_columns_df Examples.catalog_conn (Some "SALES")
         (Some ["ORDERS"; "customers_v"]).
Proof.
  assert (Forall ascii_name ["Orders"; "CUSTOMERS_V"]) as H1.
  { apply (bool_decide_unpack _). vm_compute. exact I. }
  assert (Forall ascii_name ["ORDERS"; "customers_v"]) as H2.
  { apply (bool_decide_unpack _). vm_compute. exact I. }
  assert (map lower ["Orders"; "CUSTOMERS_V"] = map lower ["ORDERS"; "customers_v"]) as H3
    by reflexivity.
  split; [by repeat split|].
  exact (table_name_filter_ignores_case Examples.catalog_conn (Some "SALES")
           ["Orders"; "CUSTOMERS_V"] ["ORDERS"; "customers_v"] H1 H2 H3).
Defined.

(** X13: an empty list of table names is the same call as no list, and an
    empty schema string the same call as no schema. *)
Theorem empty_filters_are_no_filters conn ts tn :
  get_valid_schemas_tables_columns_df conn ts (Some [])
  = get_valid_schemas_tables_columns_df conn ts None
  /\ get_valid_schemas_tables_columns_df conn (Some "") tn
     = get_valid_schemas_tables_columns_df conn None tn.
Proof. split; reflexivity. Qed.

Lemma outcome_bind_raise {A B} (m : M A) (f : A -> M B) e :
  outcome m = Raise e -> outcome (bind m f) = Raise e.
Proof. destruct m as [t r]; simpl; by intros ->. Qed.

Lemma open_sessions_from n t :
  foldl (fun n ev => match ev with
                     | SessionOpened => n + 1
                     | SessionClosed => n - 1
                     | _ => n
                     end) n t
  = n + open_sessions t.
Proof.
  unfold open_sessions. revert n. induction t as [|ev t IH]; intros n; simpl; [lia|].
  rewrite IH. rewrite (IH (match ev with SessionOpened => 0 + 1
                                       | SessionClosed => 0 - 1 | _ => 0 end)).
  destruct ev; lia.
Qed.

Lemma open_sessions_app t1 t2 : open_sessions (t1 ++ t2) = open_sessions t1 + open_sessions t2.
Proof. unfold open_sessions at 1. rewrite foldl_app. fold (open_sessions t1). apply open_sessions_from. Qed.

Lemma open_sessions_neutral t : session_neutral t -> open_sessions t = 0.
Proof.
  induction 1 as [|ev t [H1 H2] _ IH]; [done|].
  change (ev :: t) with ([ev] ++ t). rewrite open_sessions_app, IH.
  by destruct ev.
Qed.

Lemma session_neutral_app t1 t2 :
  session_neutral t1 -> session_neutral t2 -> session_neutral (t1 ++ t2).
Proof. apply Forall_app_2. Qed.

Lemma session_neutral_not_closed t : session_neutral t -> SessionClosed ∉ t.
Proof. intros H Hin. by destruct (proj1 (Forall_forall _ _) H _ Hin). Qed.

Lemma session_neutral_not_opened t : session_neutral t -> SessionOpened ∉ t.
Proof. intros H Hin. by destruct (proj1 (Forall_forall _ _) H _ Hin). Qed.

Lemma session_neutral_bind {A B} (m : M A) (f : A -> M B) :
  session_neutral (trace m) -> (forall a, session_neutral (trace (f a))) ->
  session_neutral (trace (bind m f)).
Proof.
  intros Hm Hf. rewrite trace_bind. apply session_neutral_app; [done|].
  destruct (outcome m); [apply Hf|constructor].
Qed.

Lemma session_neutral_try_except {A} (m : M A) (h : PyExc -> M A) :
  session_neutral (trace m) -> (forall e, session_neutral (trace (h e))) ->
  session_neutral (trace (try_except m h)).
Proof.
  intros Hm Hh. destruct m as [t [a|e]]; simpl in *; [done|].
  specialize (Hh e). destruct (h e) as [t' r]. simpl in *. by apply session_neutral_app.
Qed.

Lemma session_neutral_cursor_execute c stmt : session_neutral (trace (cursor_execute c stmt)).
Proof.
  unfold cursor_execute. simpl. destruct (statement c stmt); simpl; by repeat constructor.
Qed.

Lemma session_neutral_plain_cursor {A} (answer : string -> Answer A) msg q :
  session_neutral (trace (plain_cursor answer msg q)).
Proof. unfold plain_cursor. destruct (answer q); simpl; by repeat constructor. Qed.

Lemma session_neutral_required v msg : session_neutral (trace (required v msg)).
Proof. unfold required. destruct v as [s|]; [destruct (truthy s)|]; constructor. Qed.

Lemma required_cases v msg :
  required v msg = ([], Raise (ValueError msg))
  \/ (truthy_opt v = true /\ required v msg = ([], Ok (default "" v))).
Proof.
  destruct v as [s|]; simpl; [|by left]. destruct (truthy s); [by right|by left].
Qed.

Lemma _get_host_eq env :
  exists t, _get_host env = (t, Ok (SNOWFLAKE_HOST env)) /\ session_neutral t.
Proof.
  unfold _get_host. destruct (truthy_opt (SNOWFLAKE_HOST env)); simpl; eexists;
    (split; [done|]); by repeat constructor.
Qed.

Lemma session_setup_shape (env : Env) (self : SnowflakeConnector) db sch
    (connection : SnowflakeConnection) :
  session_neutral (trace (session_setup env self db sch connection))
  /\ (outcome (session_setup env self db sch connection) = Ok connection
      \/ exists e, outcome (session_setup env self db sch connection) = Raise e).
Proof.
  unfold session_setup. split.
  - apply session_neutral_bind; [|intros _; apply session_neutral_bind;
        [|intros _; apply session_neutral_bind;
          [|intros _; apply session_neutral_bind; [|intros _; constructor]]]].
    + destruct (truthy db); [|constructor].
      apply session_neutral_try_except; [apply session_neutral_cursor_execute|].
      intros; constructor.
    + destruct (truthy_opt sch); [|constructor].
      apply session_neutral_try_except; [apply session_neutral_cursor_execute|].
      intros; constructor.
    + destruct (truthy _QUERY_TAG); [apply session_neutral_cursor_execute|constructor].
    + apply session_neutral_cursor_execute.
  - repeat match goal with
           | |- context [outcome (bind ?m ?f)] =>
               let Hm := fresh "Hm" in
               let e := fresh "e" in
               destruct (outcome m) as [[]|e] eqn:Hm;
               [rewrite (outcome_bind_ok m f tt Hm); cbv beta
               |right; exists e; apply (outcome_bind_raise m f e Hm)]
           end.
    by left.
Qed.

Ltac resolve_required :=
  match goal with
  | |- context [bind (required ?v ?msg) ?f] =>
      let H := fresh "Hreq" in
      let T := fresh "Htruthy" in
      destruct (required_cases v msg) as [H|[T H]];
      [rewrite (bind_raise_eq _ f _ _ H)
      |rewrite (bind_ok_eq _ f _ _ H); cbn [app]; rewrite <- M_eta]
  end.

Lemma _open_connection_cases env drv self db sch :
  (session_neutral (trace (_open_connection env drv self db sch))
   /\ exists e, outcome (_open_connection env drv self db sch) = Raise e)
  \/ (exists c,
        (forall cr, truthy_opt (credential env cr) = true)
        /\ login env drv self = Ok c
        /\ _open_connection env drv self db sch
           = (trace (_get_host env) ++ SessionOpened :: trace (session_setup env self db sch c),
              outcome (session_setup env self db sch c))).
Proof.
  unfold _open_connection, _get_user, _get_password, _get_role, _get_warehouse.
  resolve_required; [left; split; [constructor|by eexists]|].
  resolve_required; [left; split; [constructor|by eexists]|].
  resolve_required; [left; split; [constructor|by eexists]|].
  resolve_required; [left; split; [constructor|by eexists]|].
  destruct (_get_host_eq env) as (th & Hh & Hth).
  rewrite (bind_ok_eq _ _ _ _ Hh). rewrite Hh. cbn [trace fst].
  unfold snowflake_connection. fold (login env drv self).
  destruct (login env drv self) as [c|e] eqn:Hlogin.
  - right. exists c. split; [by intros []|]. split; [done|].
    rewrite (bind_ok_eq _ _ [SessionOpened] c eq_refl).
    fold (session_setup env self db sch c). done.
  - left. rewrite (bind_raise_eq (raise e) _ [] e eq_refl). cbn [trace outcome fst snd].
    split; [by rewrite app_nil_r|by eexists].
Qed.

Lemma required_truthy v msg :
  truthy_opt v = true -> required v msg = ([], Ok (default "" v)).
Proof. destruct v as [s|]; simpl; [|done]. by intros ->. Qed.

Lemma statements_get_host env : statements (trace (_get_host env)) = [].
Proof. unfold _get_host. by destruct (truthy_opt (SNOWFLAKE_HOST env)). Qed.

Lemma _open_connection_logged_in env drv self db sch c :
  (forall cr, truthy_opt (credential env cr) = true) ->
  login env drv self = Ok c ->
  _open_connection env drv self db sch
  = (trace (_get_host env) ++ SessionOpened :: trace (session_setup env self db sch c),
     outcome (session_setup env self db sch c)).
Proof.
  intros Hcred Hlogin.
  destruct (_open_connection_cases env drv self db sch)
    as [[Hn [e He]]|(c' & _ & Hlogin' & Heq)].
  - exfalso. apply (session_neutral_not_opened _ Hn).
    unfold _open_connection.
    eapply elem_of_trace_bind_r;
      [unfold _get_user; by rewrite (required_truthy _ _ (Hcred User))|].
    eapply elem_of_trace_bind_r;
      [unfold _get_password; by rewrite (required_truthy _ _ (Hcred Password))|].
    eapply elem_of_trace_bind_r;
      [unfold _get_role; by rewrite (required_truthy _ _ (Hcred Role))|].
    eapply elem_of_trace_bind_r;
      [unfold _get_warehouse; by rewrite (required_truthy _ _ (Hcred Warehouse))|].
    eapply elem_of_trace_bind_r.
    { unfold _get_host. by destruct (truthy_opt (SNOWFLAKE_HOST env)). }
    apply elem_of_trace_bind_l. unfold snowflake_connection. simpl.
    unfold login in Hlogin. rewrite Hlogin. simpl. by left.
  - rewrite Hlogin in Hlogin'. by injection Hlogin' as <-.
Qed.

(** X14: when the credentials are set, the driver accepts the login and the
    session accepts every statement, [_open_connection] returns the
    connection of the driver after issuing, in this order, [USE DATABASE]
    (for a non-empty database name), [USE SCHEMA] (for a non-empty schema),
    the query tag and the statement timeout. *)
Theorem session_is_configured_in_order env drv self db sch c :
  (forall cr, truthy_opt (credential env cr) = true) ->
  login env drv self = Ok c ->
  (forall stmt, statement c stmt = None) ->
  outcome (_open_connection env drv self db sch) = Ok c
  /\ statements (trace (_open_connection env drv self db sch))
     = (if truthy db then [use_database db] else [])
       ++ (if truthy_opt sch then [use_schema (default "" sch)] else [])
       ++ [set_query_tag; set_timeout env].
Proof.
  intros Hcred Hlogin Hstmt.
  rewrite (_open_connection_logged_in _ _ _ _ _ _ Hcred Hlogin).
  cbn [trace outcome fst snd]. rewrite statements_app, statements_get_host.
  unfold session_setup, cursor_execute. rewrite !Hstmt.
  by destruct (truthy db), (truthy_opt sch).
Qed.

Lemma session_is_configured_in_order_witness :
  outcome (_open_connection Examples.full_env Scenarios.welcoming_driver Examples.connector
             "db" (Some "sc")) = Ok Scenarios.open_session
  /\ statements (trace (_open_connection Examples.full_env Scenarios.welcoming_driver
                          Examples.connector "db" (Some "sc")))
     = ["USE DATABASE db"; "USE SCHEMA sc";
        "ALTER SESSION SET QUERY_TAG = 'SEMANTIC_MODEL_GENERATOR'";
        "ALTER SESSION SET STATEMENT_TIMEOUT_IN_SECONDS = 120"].
Proof.
  assert (forall cr, truthy_opt (credential Examples.full_env cr) = true) as H1
    by (intros []; reflexivity).
  exact (session_is_configured_in_order Examples.full_env Scenarios.welcoming_driver
           Examples.connector "db" (Some "sc") Scenarios.open_session H1 eq_refl
           (fun _ => eq_refl)).
Defined.

(** X15: when [USE DATABASE] raises, whatever the exception,
    [_open_connection] raises the [ValueError] that names the database and
    the account, and no further statement is issued; when [USE SCHEMA]
    raises it raises the [ValueError] that names the schema and the
    database, and the session parameters are not set. *)
Theorem failed_selection_is_reported env drv self db sch c :
  (forall cr, truthy_opt (credential env cr) = true) ->
  login env drv self = Ok c ->
  (forall e, truthy db = true -> statement c (use_database db) = Some e ->
     outcome (_open_connection env drv self db sch)
     = Raise (ValueError ("Could not connect to database " +:+ db
                          +:+ ". Does the database exist in " +:+ account_name self +:+ "?"))
     /\ statements (trace (_open_connection env drv self db sch)) = [use_database db])
  /\ (forall e, (truthy db = true -> statement c (use_database db) = None) ->
        truthy_opt sch = true -> statement c (use_schema (default "" sch)) = Some e ->
        outcome (_open_connection env drv self db sch)
        = Raise (ValueError ("Could not connect to schema " +:+ default "" sch
                             +:+ ". Does the schema exist in the " +:+ db +:+ " database?"))
        /\ statements (trace (_open_connection env drv self db sch))
           = (if truthy db then [use_database db] else []) ++ [use_schema (default "" sch)]).
Proof.
  intros Hcred Hlogin.
  rewrite (_open_connection_logged_in _ _ _ _ _ _ Hcred Hlogin).
  cbn [trace outcome fst snd]. rewrite statements_app, statements_get_host.
  unfold session_setup, cursor_execute, use_database, use_schema. split.
  - intros e Hdb He. by rewrite Hdb, He.
  - intros e Hdb Hsch He. rewrite Hsch, He.
    destruct (truthy db); [by rewrite Hdb|done].
Qed.

Lemma failed_selection_is_reported_witness :
  outcome (_open_connection Examples.full_env Examples.accepting_driver Examples.connector
             "missing_db" (Some "sc"))
  = Raise (ValueError
             "Could not connect to database missing_db. Does the database exist in acct?")
  /\ statements (trace (_open_connection Examples.full_env Examples.accepting_driver
                          Examples.connector "missing_db" (Some "sc")))
     = ["USE DATABASE missing_db"].
Proof.
  assert (forall cr, truthy_opt (credential Examples.full_env cr) = true) as H1
    by (intros []; reflexivity).
  exact (proj1 (failed_selection_is_reported Examples.full_env Examples.accepting_driver
                  Examples.connector "missing_db" (Some "sc") Examples.session H1 eq_refl)
           _ eq_refl eq_refl).
Defined.

(** X16: an exception of one of the two [ALTER SESSION] statements leaves
    [_open_connection] as the driver raised it. *)
Theorem session_parameter_failure_is_not_wrapped env drv self db sch c e :
  (forall cr, truthy_opt (credential env cr) = true) ->
  login env drv self = Ok c ->
  statement c (use_database db) = None ->
  statement c (use_schema (default "" sch)) = None ->
  (statement c set_query_tag = Some e ->
   outcome (_open_connection env drv self db sch) = Raise e)
  /\ (statement c set_query_tag = None -> statement c (set_timeout env) = Some e ->
      outcome (_open_connection env drv self db sch) = Raise e).
Proof.
  intros Hcred Hlogin Hdb Hsch.
  rewrite (_open_connection_logged_in _ _ _ _ _ _ Hcred Hlogin).
  cbn [trace outcome fst snd].
  unfold session_setup, cursor_execute, use_database, use_schema, set_query_tag, set_timeout
    in *.
  rewrite Hdb, Hsch. split.
  - intros He. change ("ALTER SESSION SET QUERY_TAG = '" +:+ _QUERY_TAG +:+ "'")
      with "ALTER SESSION SET QUERY_TAG = 'SEMANTIC_MODEL_GENERATOR'".
    rewrite He. by destruct (truthy db), (truthy_opt sch).
  - intros Htag He. change ("ALTER SESSION SET QUERY_TAG = '" +:+ _QUERY_TAG +:+ "'")
      with "ALTER SESSION SET QUERY_TAG = 'SEMANTIC_MODEL_GENERATOR'".
    rewrite Htag, He. by destruct (truthy db), (truthy_opt sch).
Qed.

Lemma session_parameter_failure_is_not_wrapped_witness :
  outcome (_open_connection Examples.full_env Scenarios.strict_driver Examples.connector
             "db" None)
  = Raise (ProgrammingError "invalid value [120] for parameter").
Proof.
  assert (forall cr, truthy_opt (credential Examples.full_env cr) = true) as H1
    by (intros []; reflexivity).
  exact (proj2 (session_parameter_failure_is_not_wrapped Examples.full_env
                  Scenarios.strict_driver Examples.connector "db" None
                  Scenarios.strict_session
                  (ProgrammingError "invalid value [120] for parameter")
                  H1 eq_refl eq_refl eq_refl) eq_refl eq_refl).
Defined.

Lemma _open_connection_returns env drv self db sch c :
  outcome (_open_connection env drv self db sch) = Ok c ->
  exists t2, _open_connection env drv self db sch
             = (trace (_get_host env) ++ SessionOpened :: t2, Ok c)
             /\ session_neutral t2.
Proof.
  intros Hok.
  destruct (_open_connection_cases env drv self db sch)
    as [[_ [e He]]|(c' & _ & _ & Heq)]; [congruence|].
  rewrite Heq in Hok |- *. cbn [outcome snd] in Hok.
  destruct (session_setup_shape env self db sch c') as [Hn _].
  eexists. split; [by rewrite Hok|done].
Qed.

Lemma session_neutral_get_host env : session_neutral (trace (_get_host env)).
Proof. destruct (_get_host_eq env) as (t & -> & Ht). done. Qed.

Lemma connect_after_open {A} env drv self db sch
    (body : SnowflakeConnection -> M A) c :
  outcome (_open_connection env drv self db sch) = Ok c ->
  session_neutral (trace (body c)) ->
  outcome (connect env drv self db sch body) = outcome (body c)
  /\ open_sessions (trace (connect env drv self db sch body)) = 0
  /\ last (trace (connect env drv self db sch body)) = Some SessionClosed.
Proof.
  intros Hok Hbody.
  destruct (_open_connection_returns _ _ _ _ _ _ Hok) as (t2 & Heq & Ht2).
  rewrite (connect_when_open_returns _ _ _ _ _ _ _ _ Heq).
  cbn [trace outcome fst snd]. split; [done|]. split.
  - rewrite !open_sessions_app.
    change (SessionOpened :: t2) with ([SessionOpened] ++ t2).
    rewrite open_sessions_app.
    rewrite (open_sessions_neutral _ (session_neutral_get_host env)),
      (open_sessions_neutral _ Ht2), (open_sessions_neutral _ Hbody).
    reflexivity.
  - by rewrite app_assoc, last_snoc.
Qed.

(** X17: when [_open_connection] returns, [connect] ends with the outcome
    of the body of the [with] statement, whether a result or an exception,
    its last event is the closing of the session, and no session is left
    open (for a body that opens and closes none itself). *)
Theorem connect_closes_the_session_it_opened {A} env drv self db sch
    (body : SnowflakeConnection -> M A) c :
  outcome (_open_connection env drv self db sch) = Ok c ->
  session_neutral (trace (body c)) ->
  outcome (connect env drv self db sch body) = outcome (body c)
  /\ open_sessions (trace (connect env drv self db sch body)) = 0
  /\ last (trace (connect env drv self db sch body)) = Some SessionClosed.
Proof. apply connect_after_open. Qed.

Lemma connect_closes_the_session_it_opened_witness :
  outcome (connect Examples.full_env Scenarios.welcoming_driver Examples.connector "db" None
             (fun _ => raise (A:=unit) (ValueError "stop")))
  = Raise (ValueError "stop")
  /\ open_sessions (trace (connect Examples.full_env Scenarios.welcoming_driver
                             Examples.connector "db" None
                             (fun _ => raise (A:=unit) (ValueError "stop")))) = 0
  /\ last (trace (connect Examples.full_env Scenarios.welcoming_driver
                    Examples.connector "db" None
                    (fun _ => raise (A:=unit) (ValueError "stop")))) = Some SessionClosed.
Proof.
  assert (session_neutral (trace (raise (A:=unit) (ValueError "stop")))) as Hn
    by constructor.
  exact (connect_closes_the_session_it_opened Examples.full_env Scenarios.welcoming_driver
           Examples.connector "db" None (fun _ => raise (A:=unit) (ValueError "stop"))
           Scenarios.open_session eq_refl Hn).
Defined.

(** X18: when the driver has accepted the login and [_open_connection]
    then raises, [connect] ends with that exception, closes nothing and
    leaves one session open. *)
Theorem session_stays_open_when_setup_fails {A} env drv self db sch
    (body : SnowflakeConnection -> M A) c e :
  (forall cr, truthy_opt (credential env cr) = true) ->
  login env drv self = Ok c ->
  outcome (_open_connection env drv self db sch) = Raise e ->
  outcome (connect env drv self db sch body) = Raise e
  /\ open_sessions (trace (connect env drv self db sch body)) = 1
  /\ SessionClosed ∉ trace (connect env drv self db sch body).
Proof.
  intros Hcred Hlogin Hraise.
  pose proof (_open_connection_logged_in _ _ _ db sch _ Hcred Hlogin) as Heq.
  rewrite Heq in Hraise. cbn [outcome snd] in Hraise. rewrite Hraise in Heq.
  rewrite (connect_when_open_raises _ _ _ _ _ _ _ _ Heq).
  cbn [trace outcome fst snd].
  destruct (session_setup_shape env self db sch c) as [Hn _].
  split; [done|]. split.
  - change (SessionOpened :: trace (session_setup env self db sch c))
      with ([SessionOpened] ++ trace (session_setup env self db sch c)).
    rewrite !open_sessions_app.
    rewrite (open_sessions_neutral _ (session_neutral_get_host env)),
      (open_sessions_neutral _ Hn). reflexivity.
  - intros [Hin|Hin]%elem_of_app.
    + by apply (session_neutral_not_closed _ (session_neutral_get_host env)).
    + apply elem_of_cons in Hin as [?|Hin]; [done|].
      by apply (session_neutral_not_closed _ Hn).
Qed.

Lemma session_stays_open_when_setup_fails_witness :
  outcome (connect Examples.full_env Scenarios.strict_driver Examples.connector "db" None
             (fun _ => ret tt))
  = Raise (ProgrammingError "invalid value [120] for parameter")
  /\ open_sessions (trace (connect Examples.full_env Scenarios.strict_driver
                             Examples.connector "db" None (fun _ => ret tt))) = 1
  /\ SessionClosed ∉ trace (connect Examples.full_env Scenarios.strict_driver
                              Examples.connector "db" None (fun _ => ret tt)).
Proof.
  assert (forall cr, truthy_opt (credential Examples.full_env cr) = true) as H1
    by (intros []; reflexivity).
  exact (session_stays_open_when_setup_fails Examples.full_env Scenarios.strict_driver
           Examples.connector "db" None (fun _ => ret tt) Scenarios.strict_session
           (ProgrammingError "invalid value [120] for parameter") H1 eq_refl eq_refl).
Defined.

Lemma collect_rows_trace rows d : trace (collect_rows d rows) = [].
Proof.
  revert d. induction rows as [|[items|other] rows IH]; intros d; simpl; [done| |done].
  apply IH.
Qed.

Lemma cells_of_absent k items : k ∉ map fst items -> cells_of k items = [].
Proof.
  unfold cells_of. induction items as [|[k' v'] items IH]; [done|]. simpl.
  intros Hk. rewrite filter_cons. simpl. rewrite decide_False.
  - apply IH. intros Hin. apply Hk. by right.
  - intros ->. apply Hk. by left.
Qed.

Lemma cells_of_present k items v :
  NoDup (map fst items) -> dict_get items k = Some v -> cells_of k items = [v].
Proof.
  induction items as [|[k' v'] items IH]; [done|]. simpl.
  intros [Hk' Hnd]%NoDup_cons. unfold cells_of. rewrite filter_cons. simpl.
  case_decide as Hk.
  - intros [= ->]. subst k'. simpl. f_equal. by apply cells_of_absent.
  - intros Hget. by apply IH.
Qed.

Lemma column_cells_records k rows vals :
  Forall2 (record_with k) rows vals -> column_cells k rows = vals.
Proof.
  induction 1 as [|r v rows vals Hr _ IH]; [done|].
  simpl. rewrite IH. destruct r as [items|other]; [|done].
  destruct Hr as [Hnd Hget]. by rewrite (cells_of_present _ _ _ Hnd Hget).
Qed.

(** X19: when execution returns rows that are all name-keyed records,
    [execute] returns a mapping; the mapping is empty for no row; for a name
    that every row has (each name once per row) its entry is the list of the
    values of the rows under that name, in row order, one per row. *)
Theorem execute_returns_one_value_per_row env conn q t rows :
  execute_body env conn q = (t, Ok rows) ->
  Forall is_dict rows ->
  exists d, execute env conn q = (t, Ok d)
    /\ (rows = [] -> d = ∅)
    /\ (forall k vals, rows <> [] -> Forall2 (record_with k) rows vals ->
          d !! k = Some vals /\ length vals = length rows).
Proof.
  intros Hb Hdicts.
  destruct (collect_rows_dicts rows ∅ Hdicts) as (d & Hc & Hne & Hk).
  { intros k. by rewrite lookup_empty. }
  exists d. split; [|split].
  - rewrite (execute_of_body _ _ _ _ _ Hb), Hc. simpl. by rewrite app_nil_r.
  - intros ->. simpl in Hc. by injection Hc as <-.
  - intros k vals Hrows Hvals. split; [|symmetry; by eapply Forall2_length].
    specialize (Hk k). rewrite lookup_empty in Hk. simpl in Hk.
    rewrite (column_cells_records _ _ _ Hvals) in Hk.
    destruct (d !! k) as [l|] eqn:Hd; simpl in Hk; [by subst|].
    subst vals. apply Forall2_nil_inv_r in Hvals. done.
Qed.

Lemma execute_returns_one_value_per_row_witness :
  exists d, outcome (execute Examples.full_env Examples.two_rows_conn "select 1") = Ok d
            /\ d !! "NAME" = Some [VStr "a"; VStr "b"].
Proof.
  assert (Forall is_dict [RDict [("ID", VInt 1); ("NAME", VStr "a")];
                          RDict [("ID", VInt 2); ("NAME", VStr "b")]]) as Hd.
  { repeat constructor. }
  destruct (execute_returns_one_value_per_row Examples.full_env Examples.two_rows_conn
              "select 1" _ _ eq_refl Hd) as (d & Hex & _ & Hk).
  exists d. rewrite Hex. split; [reflexivity|].
  assert (NoDup ["ID"; "NAME"]) as Hnd.
  { apply NoDup_cons. split; [|apply NoDup_singleton].
    intros Hin. apply list_elem_of_singleton in Hin. discriminate. }
  refine (proj1 (Hk "NAME" [VStr "a"; VStr "b"] _ _)); [discriminate|].
  constructor; [split; [exact Hnd|reflexivity]|].
  constructor; [split; [exact Hnd|reflexivity]|].
  constructor.
Defined.

Lemma session_neutral_execute env conn q : session_neutral (trace (execute env conn q)).
Proof.
  unfold execute. apply session_neutral_bind.
  - apply session_neutral_try_except.
    + unfold execute_body. apply session_neutral_bind; [|intros _].
      * destruct (warehouse conn); [constructor|].
        apply session_neutral_bind; [apply session_neutral_required|intros wh].
        apply session_neutral_bind; [by repeat constructor|intros _].
        apply session_neutral_cursor_execute.
      * apply session_neutral_bind; [by repeat constructor|intros _].
        apply session_neutral_plain_cursor.
    + intros e. destruct e; constructor.
  - intros rows. rewrite collect_rows_trace. constructor.
Qed.

(** X20: [execute] called on the connection that [connect] yields, inside
    the [with] statement: when the connection opens, the outcome is that of
    [execute], no session is left open, and the statements are those of the
    opening followed by those of [execute]. *)
Theorem query_inside_connect_leaves_no_session env drv self db sch q c :
  outcome (_open_connection env drv self db sch) = Ok c ->
  outcome (connect env drv self db sch (fun conn => execute env conn q))
  = outcome (execute env c q)
  /\ open_sessions (trace (connect env drv self db sch (fun conn => execute env conn q))) = 0
  /\ statements (trace (connect env drv self db sch (fun conn => execute env conn q)))
     = statements (trace (_open_connection env drv self db sch))
       ++ statements (trace (execute env c q)).
Proof.
  intros Hok.
  destruct (connect_after_open env drv self db sch
              (fun conn => execute env conn q) c Hok (session_neutral_execute env c q))
    as (Hout & Hopen & _).
  split; [done|]. split; [done|].
  rewrite (connect_when_open_returns _ _ _ _ _ _ _ c
             (eq_trans (M_eta _) (f_equal (pair _) Hok))).
  cbn [trace fst]. rewrite !statements_app. simpl. by rewrite app_nil_r.
Qed.

Lemma query_inside_connect_leaves_no_session_witness :
  outcome (connect Examples.full_env Scenarios.welcoming_driver Examples.connector "db" None
             (fun conn => execute Examples.full_env conn "select 1"))
  = outcome (execute Examples.full_env Scenarios.open_session "select 1")
  /\ open_sessions (trace (connect Examples.full_env Scenarios.welcoming_driver
                             Examples.connector "db" None
                             (fun conn => execute Examples.full_env conn "select 1"))) = 0
  /\ statements (trace (connect Examples.full_env Scenarios.welcoming_driver
                          Examples.connector "db" None
                          (fun conn => execute Examples.full_env conn "select 1")))
     = statements (trace (_open_connection Examples.full_env Scenarios.welcoming_driver
                            Examples.connector "db" None))
       ++ statements (trace (execute Examples.full_env Scenarios.open_session "select 1")).
Proof.
  exact (query_inside_connect_leaves_no_session Examples.full_env Scenarios.welcoming_driver
           Examples.connector "db" None "select 1" Scenarios.open_session eq_refl).
Defined.

Lemma statements_execute_body_warehouse_set env conn q w :
  warehouse conn = Some w ->
  execute_body env conn q
  = (Logged INFO ("Executing query = " +:+ q)
       :: trace (plain_cursor (dict_cursor conn) "cursor_execute should not be None here" q),
     outcome (plain_cursor (dict_cursor conn) "cursor_execute should not be None here" q)).
Proof.
  intros Hw. unfold execute_body. rewrite Hw. simpl.
  by destruct (plain_cursor _ _ _).
Qed.

Lemma statements_execute env conn q :
  statements (trace (execute env conn q)) = statements (trace (execute_body env conn q)).
Proof.
  unfold execute. rewrite trace_bind.
  destruct (execute_body env conn q) as [t [rows|e]]; simpl.
  - rewrite collect_rows_trace. by rewrite app_nil_r.
  - destruct e; simpl; by rewrite !app_nil_r.
Qed.

(** X21: on a connection with a warehouse [execute] issues the query
    alone; on a connection without one it first issues [use warehouse] with
    the warehouse of the environment, its hyphens turned into underscores,
    then the query. *)
Theorem warehouse_is_attached_when_missing env conn q :
  dict_cursor conn q <> CursorNone ->
  (forall w, warehouse conn = Some w ->
     statements (trace (execute env conn q)) = [q])
  /\ (warehouse conn = None ->
      truthy_opt (SNOWFLAKE_WAREHOUSE env) = true ->
      statement conn (use_warehouse (default "" (SNOWFLAKE_WAREHOUSE env))) = None ->
      statements (trace (execute env conn q))
      = [use_warehouse (default "" (SNOWFLAKE_WAREHOUSE env)); q]).
Proof.
  intros Hcur. rewrite statements_execute. split.
  - intros w Hw. rewrite (statements_execute_body_warehouse_set _ _ _ _ Hw).
    unfold plain_cursor. by destruct (dict_cursor conn q).
  - intros Hw Henv Hstmt. unfold execute_body, _get_warehouse, cursor_execute, use_warehouse in *.
    rewrite Hw, (required_truthy _ _ Henv). simpl. rewrite Hstmt. simpl.
    unfold plain_cursor. by destruct (dict_cursor conn q).
Qed.

Lemma warehouse_is_attached_when_missing_witness :
  statements (trace (execute Scenarios.hyphen_env Scenarios.no_warehouse_conn "select 1"))
  = ["use warehouse compute_wh"; "select 1"]
  /\ statements (trace (execute Scenarios.hyphen_env Examples.two_rows_conn "select 1"))
     = ["select 1"].
Proof.
  assert (dict_cursor Scenarios.no_warehouse_conn "select 1" <> CursorNone) as H1
    by discriminate.
  assert (dict_cursor Examples.two_rows_conn "select 1" <> CursorNone) as H2
    by discriminate.
  split.
  - exact (proj2 (warehouse_is_attached_when_missing Scenarios.hyphen_env
                    Scenarios.no_warehouse_conn "select 1" H1) eq_refl eq_refl eq_refl).
  - exact (proj1 (warehouse_is_attached_when_missing Scenarios.hyphen_env
                    Examples.two_rows_conn "select 1" H2) "WH" eq_refl).
Defined.

(** X22: on a connection without a warehouse, when the environment has
    none either [execute] raises the configuration error of the missing
    warehouse before any event; when the [use warehouse] statement raises,
    the query is not issued and the exception is the outcome, as a query
    error if it is a [ProgrammingError]. *)
Theorem warehouse_attachment_failures env conn q :
  warehouse conn = None ->
  (truthy_opt (SNOWFLAKE_WAREHOUSE env) = false ->
   execute env conn q
   = ([], Raise (ValueError
        "You need to set an env var for the snowflake warehouse. export SNOWFLAKE_WAREHOUSE=<your-snowflake-warehouse-name>")))
  /\ (forall e, truthy_opt (SNOWFLAKE_WAREHOUSE env) = true ->
        statement conn (use_warehouse (default "" (SNOWFLAKE_WAREHOUSE env))) = Some e ->
        statements (trace (execute env conn q))
        = [use_warehouse (default "" (SNOWFLAKE_WAREHOUSE env))]
        /\ outcome (execute env conn q)
           = Raise (match e with
                    | ProgrammingError m => ValueError ("Query Error: " +:+ m)
                    | _ => e
                    end)).
Proof.
  intros Hw. split.
  - intros Henv. unfold execute, execute_body, _get_warehouse.
    by rewrite Hw, (required_missing _ _ Henv).
  - intros e Henv Hstmt. rewrite statements_execute.
    unfold execute, execute_body, _get_warehouse, cursor_execute, use_warehouse in *.
    rewrite Hw, (required_truthy _ _ Henv). simpl. rewrite Hstmt. simpl.
    split; [done|]. by destruct e.
Qed.

Lemma warehouse_attachment_failures_witness :
  mentions
    (exc_str match outcome (execute Scenarios.env_without_warehouse
                              Scenarios.no_warehouse_conn "select 1") with
             | Raise e => e
             | Ok _ => ValueError ""
             end)
    "SNOWFLAKE_WAREHOUSE" = true
  /\ trace (execute Scenarios.env_without_warehouse Scenarios.no_warehouse_conn "select 1")
     = [].
Proof.
  rewrite (proj1 (warehouse_attachment_failures Scenarios.env_without_warehouse
                    Scenarios.no_warehouse_conn "select 1" eq_refl) eq_refl).
  split; reflexivity.
Defined.
